(** * folktexts: column-to-text mappers, PUMS code tables and the benchmark CLI

    A shallow embedding of
      - [folktexts/col_to_text.py]       (class [ColumnToText]),
      - [folktexts/acs/acs_columns.py]   ([parse_pums_code] and the ACS columns),
      - [folktexts/cli/run_acs_benchmark.py] (argument parser and configuration),
    followed by the properties established about them.

    Python objects are modelled as follows.
      - A raw column value is an [int] or a [str] ([value]).
      - [str] is [string], a sequence of ASCII characters: the classes of
        [\d], [\s], [str.lower], [str.strip], [int] and [float] are the ASCII
        parts of Python's.
      - A [dict] whose iteration order is observed (a mapper's value map) is an
        insertion-ordered association list ([pydict]); the dictionaries of
        [parse_pums_code], which are only ever indexed, are [gmap]s.
      - Exceptions, logging, the file system and the mutable default argument
        of [parse_pums_code] are made explicit in a state-and-exception monad
        [M] over a [world]. *)

From Stdlib Require Import ZArith String Ascii List DecimalString Lia.
From stdpp Require Import base option list gmap strings.

Set Default Proof Using "Type".

(** ** Python values, exceptions and the process state *)

Inductive exn : Type :=
| ValueError (msg : string)
| TypeError (msg : string)
| KeyError (key : string)
| AttributeError (attribute : string)
| FileNotFoundError (path : string)
| IsADirectoryError (path : string)
| PermissionError (path : string)
| UnicodeDecodeError (reason : string)
| SystemExit (code : Z).

Inductive result (A : Type) : Type :=
| Ok (a : A)
| Raise (e : exn).
Arguments Ok {A} a.
Arguments Raise {A} e.

#[global] Instance result_ret : MRet result := λ A a, Ok a.
#[global] Instance result_bind : MBind result := λ A B k r,
  match r with
  | Ok a => k a
  | Raise e => Raise e
  end.
#[global] Instance result_fmap : FMap result := λ A B f r,
  match r with
  | Ok a => Ok (f a)
  | Raise e => Raise e
  end.

Inductive value : Type :=
| VInt (z : Z)
| VStr (s : string).

#[global] Instance value_eq_dec : EqDecision value.
Proof. solve_decision. Defined.

Inductive level : Type := DEBUG | INFO | WARNING | ERROR | CRITICAL.

(** What a path on disk holds: a text file; a file whose bytes stop being
    text at some point, so that iterating over it delivers the lines of
    [decoded] and then raises [UnicodeDecodeError]; or something [open]
    refuses with the exception [e] (a directory, a file without read
    permission). *)
Inductive file : Type :=
| TextFile (content : string)
| UndecodableFile (decoded reason : string)
| Unopenable (e : exn).

(** What a process can observe and change: the files on disk, the
    dictionary bound once to the default argument [cache={}] of
    [parse_pums_code] and shared by all its calls, the paths handed to a
    successful [open], and the records sent to [logging]. *)
Record world : Type := World {
  disk : gmap string file;
  cache : gmap string (gmap Z string);
  reads : list string;
  log : list (level * string);
}.

Definition M (A : Type) : Type := world → result A * world.

#[global] Instance M_ret : MRet M := λ A a w, (Ok a, w).
#[global] Instance M_bind : MBind M := λ A B k c w,
  match c w with
  | (Ok a, w') => k a w'
  | (Raise e, w') => (Raise e, w')
  end.

Definition raise {A : Type} (e : exn) : M A := λ w, (Raise e, w).

(** A computation without effect on the state. *)
Definition lift {A : Type} (r : result A) : M A := λ w, (r, w).

Definition logging (lvl : level) (msg : string) : M unit := λ w,
  (Ok tt, World (disk w) (cache w) (reads w) (log w ++ [(lvl, msg)])).

(** ** Strings *)

(** [str(z)] for an [int]. *)
Definition str_of_int (z : Z) : string := NilEmpty.string_of_int (Z.to_int z).

(** [str(v)], as the f-strings of the source format a raw value. *)
Definition str_of_value (v : value) : string :=
  match v with
  | VInt z => str_of_int z
  | VStr s => s
  end.

Definition is_digit (c : ascii) : bool :=
  let n := nat_of_ascii c in (48 <=? n)%nat && (n <=? 57)%nat.

(** ASCII members of Python's whitespace class ([\s], [str.isspace]):
    tab, line feed, vertical tab, form feed, carriage return, the four
    separators 0x1c-0x1f and the space. *)
Definition is_space (c : ascii) : bool :=
  let n := nat_of_ascii c in
  ((9 <=? n)%nat && (n <=? 13)%nat) || ((28 <=? n)%nat && (n <=? 32)%nat).

Definition digit_value (c : ascii) : Z := Z.of_nat (nat_of_ascii c) - 48.

(** Value of a run of decimal digits, most significant first. *)
Definition int_of_digits (ds : list ascii) : Z :=
  fold_left (λ acc c, 10 * acc + digit_value c)%Z ds 0%Z.

Fixpoint lstrip (s : list ascii) : list ascii :=
  match s with
  | c :: s' => if is_space c then lstrip s' else s
  | [] => []
  end.

Definition rstrip (s : list ascii) : list ascii := rev (lstrip (rev s)).

(** [s.strip()] *)
Definition strip (s : string) : string :=
  string_of_list_ascii (rstrip (lstrip (list_ascii_of_string s))).

Definition lower_ascii (c : ascii) : ascii :=
  let n := nat_of_ascii c in
  if (65 <=? n)%nat && (n <=? 90)%nat then ascii_of_nat (n + 32) else c.

(** [s.lower()] *)
Definition lower (s : string) : string :=
  string_of_list_ascii (map lower_ascii (list_ascii_of_string s)).

(** [s[n:]] for [n >= 0] *)
Definition slice_from (n : nat) (s : string) : string :=
  string_of_list_ascii (drop n (list_ascii_of_string s)).

(** The whitespace [int] and [float] skip around a literal: tab, line
    feed, vertical tab, form feed, carriage return and the space. *)
Definition is_ascii_space (c : ascii) : bool :=
  let n := nat_of_ascii c in
  ((9 <=? n)%nat && (n <=? 13)%nat) || (n =? 32)%nat.

Fixpoint skip_ascii_spaces (s : list ascii) : list ascii :=
  match s with
  | c :: s' => if is_ascii_space c then skip_ascii_spaces s' else s
  | [] => []
  end.

Definition double_quote : ascii := ascii_of_nat 34.

Definition hex_digit (n : nat) : ascii :=
  if (n <? 10)%nat then ascii_of_nat (48 + n) else ascii_of_nat (87 + n).

(** One character of [repr(s)] inside the quote [q]. *)
Definition repr_char (q c : ascii) : list ascii :=
  let n := nat_of_ascii c in
  if decide (c = q) then ["\"%char; c]
  else if decide (c = "\"%char) then ["\"%char; "\"%char]
  else if (n =? 9)%nat then ["\"%char; "t"%char]
  else if (n =? 10)%nat then ["\"%char; "n"%char]
  else if (n =? 13)%nat then ["\"%char; "r"%char]
  else if (n <? 32)%nat || (n =? 127)%nat
       then ["\"%char; "x"%char; hex_digit (n / 16); hex_digit (n mod 16)]
  else [c].

(** [repr(s)] for a [str]: single quotes, unless the string holds a single
    quote and no double quote. *)
Definition repr_str (s : string) : string :=
  let chars := list_ascii_of_string s in
  let q := if bool_decide ("'"%char ∈ chars) && negb (bool_decide (double_quote ∈ chars))
           then double_quote else "'"%char in
  string_of_list_ascii (q :: concat (map (repr_char q) chars) ++ [q]).

(** The longest prefix of digits and underscores, and what follows it. *)
Fixpoint span_digit_run (s : list ascii) : list ascii * list ascii :=
  match s with
  | c :: s' =>
      if is_digit c || bool_decide (c = "_"%char)
      then let '(run, rest) := span_digit_run s' in (c :: run, rest)
      else ([], s)
  | [] => ([], [])
  end.

(** The digits of a run in which underscores stand singly between digits;
    [after_digit] tells whether the previous character was a digit. *)
Fixpoint ungroup (run : list ascii) (after_digit : bool) : option (list ascii) :=
  match run with
  | [] => if after_digit then Some [] else None
  | c :: run' =>
      if bool_decide (c = "_"%char)
      then (if after_digit then ungroup run' false else None)
      else cons c <$> ungroup run' true
  end.

(** The default of [sys.get_int_max_str_digits()]. *)
Definition int_max_str_digits : nat := 4300.

(** What [int] raises for a literal of [n] digits, more than the limit. *)
Definition exceeds_int_max_str_digits (n : nat) : exn :=
  ValueError
    ("Exceeds the limit (" +:+ str_of_int (Z.of_nat int_max_str_digits)
     +:+ " digits) for integer string conversion: value has "
     +:+ str_of_int (Z.of_nat n)
     +:+ " digits; use sys.set_int_max_str_digits() to increase the limit").

(** [int(s)] for a [str]: whitespace around the literal is skipped, one
    sign is allowed, the digits may be grouped by single underscores, and
    more than [int_max_str_digits] digits are refused.  The message of an
    invalid literal shows the first 200 characters of its [repr]. *)
Definition int_of_str (s : string) : result Z :=
  let invalid :=
    Raise (ValueError
      ("invalid literal for int() with base 10: "
       +:+ string_of_list_ascii (take 200 (list_ascii_of_string (repr_str s))))) in
  let body := skip_ascii_spaces (list_ascii_of_string s) in
  let '(neg, unsigned) :=
    match body with
    | "-"%char :: r => (true, r)
    | "+"%char :: r => (false, r)
    | _ => (false, body)
    end in
  let '(run, rest) := span_digit_run unsigned in
  match ungroup run false with
  | None => invalid
  | Some ds =>
      if (int_max_str_digits <? length ds)%nat
      then Raise (exceeds_int_max_str_digits (length ds))
      else
        match skip_ascii_spaces rest with
        | [] => Ok (if neg then - int_of_digits ds else int_of_digits ds)%Z
        | _ => invalid
        end
  end.

(** [int(x)] for a raw value. *)
Definition int_of_value (v : value) : result Z :=
  match v with
  | VInt z => Ok z
  | VStr s => int_of_str s
  end.

(** ** Insertion-ordered dictionaries *)

Section Pydict.
Context {A : Type}.

Definition pydict : Type := list (value * A).

(** [k in d] *)
Definition dict_contains (d : pydict) (k : value) : bool :=
  bool_decide (k ∈ d.*1).

(** [d.get(k)] *)
Fixpoint dict_get (d : pydict) (k : value) : option A :=
  match d with
  | [] => None
  | (k', a) :: d' => if decide (k' = k) then Some a else dict_get d' k
  end.

(** [d[k] = a]: an existing key keeps its position, a new key goes last. *)
Fixpoint dict_set (d : pydict) (k : value) (a : A) : pydict :=
  match d with
  | [] => [(k, a)]
  | (k', a') :: d' =>
      if decide (k' = k) then (k, a) :: d' else (k', a') :: dict_set d' k a
  end.

(** A dictionary display or comprehension: the items are stored left to
    right. *)
Definition dict_of_items (items : list (value * A)) : pydict :=
  fold_left (λ d kv, dict_set d kv.1 kv.2) items [].

(** [d.items()] *)
Definition dict_items (d : pydict) : list (value * A) := d.

(** The representation invariant of a dictionary: keys are unique. *)
Definition dict_wf (d : pydict) : Prop := NoDup d.*1.
End Pydict.
Arguments pydict A : clear implicits.

(** ** Questions and choices ([qa_interface]) *)

(** Modelled from the spec: the module [qa_interface] ([QAInterface],
    [MultipleChoiceQA] and its two conversions) is outside the sources
    embedded here.  A question has a prompt and an ordered sequence of choices; a
    choice carries its display text, the raw value it stands for and an
    optional numeric value. *)
Record Choice : Type := mkChoice {
  choice_text : string;
  choice_value : value;
  numeric_value : option Z;
}.

(** Modelled from the spec: the prompt of a synthesised question is built
    from the column name and the short description; the wording is not
    given, so such a prompt is kept as the pair it is built from. *)
Inductive prompt : Type :=
| PromptText (s : string)
| PromptFor (column attribute : string).

(** Modelled from the spec: questions are multiple-choice questions or have
    some other shape, for which no mapping can be derived. *)
Inductive QAInterface : Type :=
| MultipleChoiceQA (text : prompt) (choices : list Choice)
| OtherQA (text : prompt).

(** [isinstance(q, MultipleChoiceQA)] *)
Definition is_MultipleChoiceQA (q : QAInterface) : bool :=
  match q with
  | MultipleChoiceQA _ _ => true
  | OtherQA _ => false
  end.

Definition choices_of (q : QAInterface) : list Choice :=
  match q with
  | MultipleChoiceQA _ cs => cs
  | OtherQA _ => []
  end.

(** The (raw value, display text) pairs of a question, in order. *)
Definition choice_pairs (q : QAInterface) : list (value * string) :=
  map (λ c, (choice_value c, choice_text c)) (choices_of q).

(** Modelled from the spec: [MultipleChoiceQA.get_value_to_text_map], the
    dictionary sending each choice's raw value to its display text. *)
Definition get_value_to_text_map (q : QAInterface) : pydict string :=
  dict_of_items (choice_pairs q).

(** Modelled from the spec: [MultipleChoiceQA.create_question_from_value_map],
    the question whose choices are the dictionary's (value, text) pairs. *)
Definition create_question_from_value_map
    (column : string) (value_map : pydict string) (attribute : string)
    : QAInterface :=
  MultipleChoiceQA (PromptFor column attribute)
    (map (λ kv, mkChoice kv.2 kv.1 None) (dict_items value_map)).

(** ** [col_to_text.py]: class [ColumnToText] *)

(** What can be passed as [value_map], by the two tests the class applies
    to it, [isinstance(value_map, dict)] and [callable(value_map)]: a
    dictionary, a callable, a dictionary that is also callable (an instance
    of a subclass of [dict] with a [__call__] method), or, since the
    annotation [dict[object, str] | Callable] is not enforced, an object
    that is neither, of which only the name of its type matters. *)
Inductive value_map_t : Type :=
| VMDict (d : pydict string)
| VMCallable (f : value → M string)
| VMCallableDict (d : pydict string) (f : value → M string)
| VMOther (type_name : string).

(** [isinstance(value_map, dict)] *)
Definition as_dict (vm : value_map_t) : option (pydict string) :=
  match vm with
  | VMDict d => Some d
  | VMCallableDict d _ => Some d
  | VMCallable _ => None
  | VMOther _ => None
  end.

Record ColumnToText : Type := mkColumnToText {
  _name : string;
  _short_description : string;
  _value_map : option value_map_t;
  _question : option QAInterface;
  _connector_verb : string;
  _missing_value_fill : string;
}.

Definition default_connector_verb : string := "is".
Definition default_missing_value_fill : string := "N/A".

Definition name (self : ColumnToText) : string := _name self.
Definition short_description (self : ColumnToText) : string :=
  _short_description self.

Definition __init__
    (name_ short_description_ : string)
    (value_map_ : option value_map_t) (question_ : option QAInterface)
    (connector_verb missing_value_fill : string) : M ColumnToText :=
  let self := mkColumnToText name_ short_description_ value_map_ question_
                connector_verb missing_value_fill in
  match question_, value_map_ with
  | Some q, None =>
      if is_MultipleChoiceQA q then
        mret (mkColumnToText name_ short_description_
                (Some (VMDict (get_value_to_text_map q))) question_
                connector_verb missing_value_fill)
      else
        raise (ValueError
          ("Cannot infer `ColumnToText` value map from the provided question; "
           +:+ "Must explicitly provide a `value_map` for column "
           +:+ name self +:+ "."))
  | None, Some vm =>
      match as_dict vm with
      | Some d =>
          mret (mkColumnToText name_ short_description_ value_map_
                  (Some (create_question_from_value_map
                           (name self) d (short_description self)))
                  connector_verb missing_value_fill)
      | None => mret self
      end
  | Some _, Some _ =>
      logging WARNING
        ("Got both `value_map` and `question` for column '" +:+ name self
         +:+ "'. Please make sure value mappings are consistent.");;
      mret self
  | None, None =>
      raise (ValueError
        ("Must provide either a `value_map` or a `question` for column '"
         +:+ name self +:+ "' but neither was provided."))
  end.

(** The property [question]. *)
Definition question (self : ColumnToText) : M (option QAInterface) :=
  match _question self with
  | None =>
      logging ERROR
        ("No question provided for column '" +:+ name self +:+ "'.");;
      mret None
  | Some q => mret (Some q)
  end.

(** The property [value_map]: the value map as a function.  The test
    [callable] comes first. *)
Definition value_map (self : ColumnToText) : M (value → M string) :=
  match _value_map self with
  | Some (VMCallable f) => mret f
  | Some (VMCallableDict _ f) => mret f
  | Some (VMDict d) =>
      mret (λ v : value,
        (if negb (dict_contains d v) then
           logging ERROR
             ("Could not find value '" +:+ str_of_value v
              +:+ "' in value map for column '" +:+ name self +:+ "'.")
         else mret tt);;
        mret (default (_missing_value_fill self) (dict_get d v)))
  | Some (VMOther type_name) =>
      raise (ValueError
        ("Invalid value map type '<class '" +:+ type_name +:+ "'>' for column '"
         +:+ name self +:+ "'."))
  | None =>
      raise (ValueError
        ("Invalid value map type '<class 'NoneType'>' for column '"
         +:+ name self +:+ "'."))
  end.

Definition __getitem__ (self : ColumnToText) (v : value) : M string :=
  f ← value_map self; f v.

Definition get_text (self : ColumnToText) (v : value) : M string :=
  value_text ← __getitem__ self v;
  mret ("The " +:+ short_description self +:+ " " +:+ _connector_verb self
        +:+ " " +:+ value_text +:+ ".").

(** ** [acs_columns.py]: the PUMS code-table loader *)

(** The fragment of Python's [re] syntax used by [line_re]: a character of a
    class, a greedy one-or-more repetition of a class, concatenation, a
    named group and the end anchor. *)
Inductive regex : Type :=
| Chr (p : ascii → bool)
| Plus (p : ascii → bool)
| Cat (r1 r2 : regex)
| Named (group_name : string) (r : regex)
| Dollar.

Definition newline : ascii := ascii_of_nat 10.
Definition carriage_return : ascii := ascii_of_nat 13.

Definition captures : Type := list (string * list ascii).

(** [p+]: the longest run is tried first, shorter ones on failure of the
    continuation. *)
Fixpoint match_plus {R : Type} (p : ascii → bool) (s : list ascii)
    (k : list ascii → option R) : option R :=
  match s with
  | c :: s' =>
      if p c then
        match match_plus p s' k with
        | Some r => Some r
        | None => k s'
        end
      else None
  | [] => None
  end.

(** Backtracking matcher in continuation-passing style.  [$] matches at the
    end of the subject and before a newline that ends it. *)
Fixpoint re_match_at {R : Type} (r : regex) (s : list ascii) (caps : captures)
    (k : list ascii → captures → option R) : option R :=
  match r with
  | Chr p =>
      match s with
      | c :: s' => if p c then k s' caps else None
      | [] => None
      end
  | Plus p => match_plus p s (λ s', k s' caps)
  | Cat r1 r2 => re_match_at r1 s caps (λ s1 caps1, re_match_at r2 s1 caps1 k)
  | Named g r1 =>
      re_match_at r1 s caps
        (λ s1 caps1, k s1 ((g, take (length s - length s1) s) :: caps1))
  | Dollar =>
      match s with
      | [] => k s caps
      | [c] => if decide (c = newline) then k s caps else None
      | _ => None
      end
  end.

(** [pattern.match(subject)]: anchored at the start, not at the end. *)
Definition re_match (r : regex) (subject : string) : option captures :=
  re_match_at r (list_ascii_of_string subject) [] (λ _ caps, Some caps).

(** [m.group(g)] *)
Definition group (m : captures) (g : string) : string :=
  match list_find (λ c, c.1 = g) m with
  | Some (_, (_, s)) => string_of_list_ascii s
  | None => ""
  end.

Definition any_but_newline (c : ascii) : bool := negb (bool_decide (c = newline)).
Definition is_dot (c : ascii) : bool := bool_decide (c = "."%char).

(** [re.compile(r"(?P<code>\d+)\s+[.](?P<description>.+)$")] *)
Definition line_re : regex :=
  Cat (Named "code" (Plus is_digit))
   (Cat (Plus is_space)
    (Cat (Chr is_dot)
     (Cat (Named "description" (Plus any_but_newline))
      Dollar))).

(** Text-mode reading translates CR LF and CR to a line feed. *)
Fixpoint universal_newlines (s : list ascii) : list ascii :=
  match s with
  | [] => []
  | c :: s1 =>
      if decide (c = carriage_return) then
        match s1 with
        | c2 :: s2 =>
            if decide (c2 = newline)
            then newline :: universal_newlines s2
            else newline :: universal_newlines s1
        | [] => [newline]
        end
      else c :: universal_newlines s1
  end.

(** Iterating over a file: each line keeps its newline; the last line may
    lack one.  [cur] holds the current line reversed. *)
Fixpoint split_lines (cur : list ascii) (s : list ascii) : list string :=
  match s with
  | [] =>
      match cur with
      | [] => []
      | _ => [string_of_list_ascii (rev cur)]
      end
  | c :: s' =>
      if decide (c = newline)
      then string_of_list_ascii (rev (c :: cur)) :: split_lines [] s'
      else split_lines (c :: cur) s'
  end.

Definition lines_of (content : string) : list string :=
  split_lines [] (universal_newlines (list_ascii_of_string content)).

(** [open(file)] and the lines the iteration over the file delivers,
    together with the exception that ends the iteration early, if any.
    A path counts as read once [open] has returned. *)
Definition open_lines (file : string) : M (list string * option exn) := λ w,
  let opened := World (disk w) (cache w) (reads w ++ [file]) (log w) in
  match disk w !! file with
  | None => (Raise (FileNotFoundError file), w)
  | Some (Unopenable e) => (Raise e, w)
  | Some (TextFile content) => (Ok (lines_of content, None), opened)
  | Some (UndecodableFile decoded reason) =>
      (Ok (lines_of decoded, Some (UnicodeDecodeError reason)), opened)
  end.

Definition get_cache : M (gmap string (gmap Z string)) := λ w, (Ok (cache w), w).

(** [cache[file] = file_cache] *)
Definition set_cache (file : string) (file_cache : gmap Z string) : M unit :=
  λ w, (Ok tt, World (disk w) (<[file := file_cache]> (cache w)) (reads w) (log w)).

(** [postprocess(description) if postprocess else description]; a
    transform may raise, and is taken not to touch the files, the cache or
    the log. *)
Definition apply_postprocess (postprocess : option (string → result string))
    (description : string) : result string :=
  match postprocess with
  | Some f => f description
  | None => Ok description
  end.

(** The body of the loop over the lines of the file.  In the assignment
    [file_cache[int(code)] = ...] the right-hand side is evaluated first. *)
Definition parse_line (postprocess : option (string → result string))
    (file_cache : gmap Z string) (line : string) : M (gmap Z string) :=
  match re_match line_re line with
  | None =>
      logging ERROR ("Could not parse line: " +:+ line);;
      mret file_cache
  | Some m =>
      let code := group m "code" in
      let description := group m "description" in
      text ← lift (apply_postprocess postprocess description);
      key ← lift (int_of_str code);
      mret (<[key := text]> file_cache)
  end.

Fixpoint parse_lines (postprocess : option (string → result string))
    (lines : list string) (file_cache : gmap Z string) : M (gmap Z string) :=
  match lines with
  | [] => mret file_cache
  | line :: rest =>
      file_cache' ← parse_line postprocess file_cache line;
      parse_lines postprocess rest file_cache'
  end.

(** [value in file_cache] and [file_cache[value]]: the keys are integers. *)
Definition code_lookup (file_cache : gmap Z string) (v : value) : option string :=
  match v with
  | VInt z => file_cache !! z
  | VStr _ => None
  end.

(** [parse_pums_code(value, file, postprocess)], always called with the
    shared default [cache].  An exception raised while the file is loaded
    leaves the function before [cache[file]] is assigned. *)
Definition parse_pums_code (v : value) (file : string)
    (postprocess : option (string → result string)) : M string :=
  cached ← get_cache;
  (if decide (cached !! file = None) then
     '(lines, failure) ← open_lines file;
     file_cache ← parse_lines postprocess lines ∅;
     match failure with
     | Some e => raise e
     | None => set_cache file file_cache
     end
   else mret tt);;
  cached ← get_cache;
  match cached !! file with
  | None => raise (KeyError file)
  | Some file_cache =>
      match code_lookup file_cache v with
      | None =>
          logging WARNING
            ("Could not find code '" +:+ str_of_value v +:+ "' in file '"
             +:+ file +:+ "'");;
          mret "N/A"
      | Some description => mret description
      end
  end.

(** ** [acs_columns.py]: the ACS columns *)

(** Modelled from the spec: [Question] and [Choice] come from a module that
    is outside the sources embedded here; the registry's inline questions
    are multiple-choice questions over an ordered list of choices. *)
Definition Question (text : string) (choices : list Choice) : QAInterface :=
  MultipleChoiceQA (PromptText text) choices.

(** [Choice(text, value)] and [Choice(text, value, numeric_value=n)] *)
Definition Choice_ (text : string) (v : value) : Choice := mkChoice text v None.
Definition Choice_numeric (text : string) (v : value) (n : Z) : Choice :=
  mkChoice text v (Some n).

(** [f"{int(x)} <unit>"], the body of the two lambdas over numeric columns. *)
Definition int_with_unit (unit_ : string) (x : value) : M string :=
  match int_of_value x with
  | Ok z => mret (str_of_int z +:+ " " +:+ unit_)
  | Raise e => raise e
  end.

Definition acs_age : M ColumnToText :=
  __init__ "AGEP" "age"
    (Some (VMCallable (int_with_unit "years old"))) None
    default_connector_verb default_missing_value_fill.

(** The source passes the prompt of this question as a one-element tuple
    (a stray trailing comma); its only string is kept here. *)
Definition acs_class_of_worker : M ColumnToText :=
  __init__ "COW" "current employment status" None
    (Some (Question
       ("Which one of the following best describes this person's employment "
        +:+ "last week or the most recent employment in the past 5 years?")
       [ Choice_ "working for a for-profit private company or organization" (VInt 1);
         Choice_ "working for a non-profit organization" (VInt 2);
         Choice_ "working for the local government" (VInt 3);
         Choice_ "working for the state government" (VInt 4);
         Choice_ "working for the federal government" (VInt 5);
         Choice_ "owner of non-incorporated business, professional practice, or farm" (VInt 6);
         Choice_ "owner of incorporated business, professional practice, or farm" (VInt 7);
         Choice_ "working without pay in a for-profit family business or farm" (VInt 8);
         Choice_ "unemployed and last worked 5 years ago or earlier or never worked" (VInt 9) ]))
    default_connector_verb default_missing_value_fill.

Definition acs_schooling : M ColumnToText :=
  __init__ "SCHL" "highest grade completed" None
    (Some (Question
       "What is this person's highest grade or level of school completed?"
       [ Choice_ "kindergarten" (VInt 3);
         Choice_ "1st grade only" (VInt 4);
         Choice_ "2nd grade" (VInt 5);
         Choice_ "3rd grade" (VInt 6);
         Choice_ "4th grade" (VInt 7);
         Choice_ "5th grade" (VInt 8);
         Choice_ "6th grade" (VInt 9);
         Choice_ "7th grade" (VInt 10);
         Choice_ "8th grade" (VInt 11);
         Choice_ "9th grade" (VInt 12);
         Choice_ "10th grade" (VInt 13);
         Choice_ "11th grade" (VInt 14);
         Choice_ "12th grade, no diploma" (VInt 15);
         Choice_ "regular high school diploma" (VInt 16);
         Choice_ "GED or alternative credential" (VInt 17);
         Choice_ "some college, less than 1 year" (VInt 18);
         Choice_ "some college, 1 or more years, no degree" (VInt 19);
         Choice_ "Associate's degree" (VInt 20);
         Choice_ "Bachelor's degree" (VInt 21);
         Choice_ "Master's degree" (VInt 22);
         Choice_ "Professional degree beyond a bachelor's degree" (VInt 23);
         Choice_ "Doctorate degree" (VInt 24) ]))
    default_connector_verb default_missing_value_fill.

Definition acs_marital_status : M ColumnToText :=
  __init__ "MAR" "marital status"
    (Some (VMDict (dict_of_items
       [ (VInt 1, "married");
         (VInt 2, "widowed");
         (VInt 3, "divorced");
         (VInt 4, "separated");
         (VInt 5, "never married") ]))) None
    default_connector_verb default_missing_value_fill.

(** [Path(__file__).parent], the directory of the module. *)
Definition module_dir : string := "folktexts/acs".

Definition ACS_OCCP_FILE : string := module_dir +:+ "/data/OCCP-codes-acs.txt".

Definition acs_occupation : M ColumnToText :=
  __init__ "OCCP" "occupation"
    (Some (VMCallable (λ v,
       parse_pums_code v ACS_OCCP_FILE
         (Some (λ x, Ok (strip (lower (slice_from 4 x)))))))) None
    default_connector_verb default_missing_value_fill.

Definition ACS_POBP_FILE : string := module_dir +:+ "/data/POBP-codes-acs.txt".

Definition acs_place_of_birth : M ColumnToText :=
  __init__ "POBP" "place of birth"
    (Some (VMCallable (λ v, parse_pums_code v ACS_POBP_FILE None))) None
    default_connector_verb default_missing_value_fill.

Definition acs_relationship : M ColumnToText :=
  __init__ "RELP" "relationship to the reference person in the household" None
    (Some (Question
       "What is this person's relationship to the reference person in the household?"
       [ Choice_ "the 'reference person' itself" (VInt 0);
         Choice_ "husband/wife" (VInt 1);
         Choice_ "biological son or daughter" (VInt 2);
         Choice_ "adopted son or daughter" (VInt 3);
         Choice_ "stepson or stepdaughter" (VInt 4);
         Choice_ "brother or sister" (VInt 5);
         Choice_ "father or mother" (VInt 6);
         Choice_ "grandchild" (VInt 7);
         Choice_ "parent-in-law" (VInt 8);
         Choice_ "son-in-law or daughter-in-law" (VInt 9);
         Choice_ "other relative" (VInt 10);
         Choice_ "roomer or boarder" (VInt 11);
         Choice_ "housemate or roommate" (VInt 12);
         Choice_ "unmarried partner" (VInt 13);
         Choice_ "foster child" (VInt 14);
         Choice_ "other non-relative" (VInt 15);
         Choice_ "institutionalized group quarters population" (VInt 16);
         Choice_ "non-institutionalized group quarters population" (VInt 17) ]))
    default_connector_verb default_missing_value_fill.

Definition acs_work_hours : M ColumnToText :=
  __init__ "WKHP" "usual number of hours worked per week"
    (Some (VMCallable (int_with_unit "hours"))) None
    default_connector_verb
    "N/A (less than 16 years old, or did not work during the past 12 months)".

Definition acs_sex : M ColumnToText :=
  __init__ "SEX" "sex" None
    (Some (Question "What is this person's sex?"
       [ Choice_ "Male" (VInt 1);
         Choice_ "Female" (VInt 2) ]))
    default_connector_verb default_missing_value_fill.

Definition acs_race : M ColumnToText :=
  __init__ "RAC1P" "race"
    (Some (VMDict (dict_of_items
       [ (VInt 1, "White");
         (VInt 2, "Black or African American");
         (VInt 3, "American Indian");
         (VInt 4, "Alaska Native");
         (VInt 5, "American Indian and Alaska Native tribes specified, or American Indian or Alaska Native, not specified and no other races");
         (VInt 6, "Asian");
         (VInt 7, "Native Hawaiian and Other Pacific Islander");
         (VInt 8, "Some other race alone (non-White)");
         (VInt 9, "Two or more races") ]))) None
    default_connector_verb default_missing_value_fill.

(** The first of the two assignments to the Python name [acs_income]. *)
Definition acs_income_PINCP : M ColumnToText :=
  __init__ "PINCP" "yearly income" None None
    default_connector_verb "N/A (less than 15 years old)".

(** The second assignment to [acs_income]. *)
Definition acs_income_PINCP_binary : M ColumnToText :=
  __init__ "PINCP_binary" "yearly income" None
    (Some (Question "What is this person's estimated yearly income?"
       [ Choice_ "Below $50,000" (VInt 0);
         Choice_ "Above $50,000" (VInt 1) ]))
    default_connector_verb "N/A (less than 15 years old)".

Definition acs_income_brackets : M ColumnToText :=
  __init__ "PINCP_brackets" "yearly income" None
    (Some (Question "What is this person's estimated yearly income?"
       [ Choice_numeric "Less than $25,000" (VStr "(0.0, 25000.0]") 12500;
         Choice_numeric "Between $25,000 and $50,000" (VStr "(25000.0, 50000.0]") 37500;
         Choice_numeric "Between $50,000 and $100,000" (VStr "(50000.0, 100000.0]") 75000;
         Choice_numeric "Above $100,000" (VStr "(100000.0, inf]") 150000 ]))
    default_connector_verb "N/A (less than 15 years old)".

Definition acs_pubcov : M ColumnToText :=
  __init__ "PUBCOV" "public health insurance coverage" None
    (Some (Question "Does this person have public health insurance coverage?"
       [ Choice_ "No, individual is not covered by public health insurance" (VInt 0);
         Choice_ "Yes, individual is covered by public health insurance" (VInt 1) ]))
    default_connector_verb default_missing_value_fill.

(** The column definitions in the order the module evaluates them, each
    with the Python name it is assigned to. *)
Definition column_definitions : list (string * M ColumnToText) :=
  [ ("acs_age", acs_age);
    ("acs_class_of_worker", acs_class_of_worker);
    ("acs_schooling", acs_schooling);
    ("acs_marital_status", acs_marital_status);
    ("acs_occupation", acs_occupation);
    ("acs_place_of_birth", acs_place_of_birth);
    ("acs_relationship", acs_relationship);
    ("acs_work_hours", acs_work_hours);
    ("acs_sex", acs_sex);
    ("acs_race", acs_race);
    ("acs_income", acs_income_PINCP);
    ("acs_income", acs_income_PINCP_binary);
    ("acs_income_brackets", acs_income_brackets);
    ("acs_pubcov", acs_pubcov) ].

(** Executing a sequence of assignments [name = ColumnToText(...)]: the
    first exception aborts the module; a later assignment to a name
    replaces the earlier binding. *)
Fixpoint exec_definitions (defs : list (string * M ColumnToText))
    (globals : gmap string ColumnToText) : M (gmap string ColumnToText) :=
  match defs with
  | [] => mret globals
  | (x, construct) :: rest =>
      column ← construct;
      exec_definitions rest (<[x := column]> globals)
  end.

(** Importing [acs_columns]. *)
Definition import_acs_columns : M (gmap string ColumnToText) :=
  exec_definitions column_definitions ∅.

(** ** [cli/run_acs_benchmark.py]: the argument parser *)

Definition DEFAULT_BATCH_SIZE : Z := 30.
Definition DEFAULT_CONTEXT_SIZE : Z := 500.
Definition DEFAULT_SEED : Z := 42.

(** The [type=] converters of the parser. *)
Inductive arg_type : Type := type_str | type_int | type_float.

(** Values held by the attributes of the parsed namespace.  A float is kept
    as the literal it was read from. *)
Inductive argval : Type :=
| ANone
| ABool (b : bool)
| AInt (z : Z)
| AFloat (literal : string)
| AStr (s : string)
| AList (l : list string).

Inductive arg_action : Type := store | store_true | store_false.

(** One [parser.add_argument(...)] call with its keyword arguments. *)
Record Argument : Type := add_argument {
  option_string : string;
  action : arg_action;
  type_ : arg_type;
  nargs_star : bool;
  help : string;
  required : bool;
  default_ : argval;
  choices_ : option (list string);
}.

(** Truth value of an object, as [if], [not] and [or] test it. *)
Definition truthy (v : argval) : bool :=
  match v with
  | ANone => false
  | ABool b => b
  | AInt z => negb (z =? 0)%Z
  | AFloat _ => true
  | AStr s => negb (String.eqb s "")
  | AList l => negb (bool_decide (l = []))
  end.

(** The tuples of [cli_args]: option string, type and help, followed by the
    optional fourth and fifth components. *)
Definition cli_arg : Type := string * arg_type * string * list argval.

Definition cli_args : list cli_arg :=
  [ ("--model", type_str, "[str] Model name or path to model saved on disk", []);
    ("--task-name", type_str, "[str] Name of the ACS task to run the experiment on", []);
    ("--results-dir", type_str, "[str] Directory under which this experiment's results will be saved", []);
    ("--data-dir", type_str, "[str] Root folder to find datasets on", []);
    ("--few-shot", type_int, "[int] Use few-shot prompting with the given number of shots", [ABool false]);
    ("--batch-size", type_int, "[int] The batch size to use for inference", [ABool false; AInt DEFAULT_BATCH_SIZE]);
    ("--context-size", type_int, "[int] The maximum context size when prompting the LLM", [ABool false; AInt DEFAULT_CONTEXT_SIZE]);
    ("--fit-threshold", type_int, "[int] Whether to fit the prediction threshold, and on how many samples", [ABool false]);
    ("--subsampling", type_float, "[float] Which fraction of the dataset to use (if omitted will use all data)", [ABool false]);
    ("--seed", type_int, "[int] Random seed -- to set for reproducibility", [ABool false; AInt DEFAULT_SEED]) ].

(** The loop over [cli_args]: required unless a fourth component says
    otherwise, default [None] unless a fifth component is given. *)
Definition argument_of_cli_arg (arg : cli_arg) : Argument :=
  let '(arg0, arg1, arg2, extra) := arg in
  add_argument arg0 store arg1 false arg2
    (match extra with
     | arg3 :: _ => truthy arg3
     | [] => true
     end)
    (match extra with
     | _ :: arg4 :: _ => arg4
     | _ => ANone
     end)
    None.

Definition setup_arg_parser : list Argument :=
  map argument_of_cli_arg cli_args ++
  [ add_argument "--dont-correct-order-bias" store_false type_str false
      "[bool] Whether to avoid correcting ordering bias, by default will correct it"
      false (ABool true) None;
    add_argument "--chat-prompt" store_true type_str false
      "[bool] Whether to use chat-based prompting (for instruct models)"
      false (ABool false) None;
    add_argument "--direct-risk-prompting" store_true type_str false
      "[bool] Whether to directly prompt for risk-estimates instead of multiple-choice Q&A"
      false (ABool false) None;
    add_argument "--reuse-few-shot-examples" store_true type_str false
      "[bool] Whether to reuse the same samples for few-shot prompting (or sample new ones every time)"
      false (ABool false) None;
    add_argument "--logger-level" store type_str false
      "[str] The logging level to use for the experiment"
      false ANone (Some ["DEBUG"; "INFO"; "WARNING"; "ERROR"; "CRITICAL"]);
    add_argument "--use-feature-subset" store type_str true
      "[str] Optional subset of features to use for prediction"
      false ANone None;
    add_argument "--use-population-filter" store type_str true
      ("[str] Optional population filter for this benchmark; must follow "
       +:+ "the format 'column_name=value' to filter the dataset by a specific value.")
      false ANone None ].

(** ** [argparse.ArgumentParser.parse_args]

    The library as of CPython 3.11, for parsers made of optional arguments
    only, with the built-in help option, as [setup_arg_parser] builds them:
    exact option strings, unambiguous prefixes of long options, the
    [--option=value] form and the [--] separator.  Every usage error ends
    the process with status 2, the help option with status 0. *)

Definition namespace : Type := gmap string argval.

(** The attribute an option is stored under: the option string without its
    leading dashes, inner dashes replaced by underscores. *)
Definition dest (a : Argument) : string :=
  let dash_to_underscore (c : ascii) :=
    if decide (c = "-"%char) then "_"%char else c in
  match list_ascii_of_string (option_string a) with
  | "-"%char :: "-"%char :: rest =>
      string_of_list_ascii (map dash_to_underscore rest)
  | chars => string_of_list_ascii (map dash_to_underscore chars)
  end.

Fixpoint span_digits (s : list ascii) : list ascii * list ascii :=
  match s with
  | c :: s' =>
      if is_digit c then let '(ds, r) := span_digits s' in (c :: ds, r)
      else ([], s)
  | [] => ([], [])
  end.

Definition nonempty {A : Type} (l : list A) : bool :=
  match l with [] => false | _ => true end.

(** Without one final newline, which [$] tolerates. *)
Definition without_final_newline (s : list ascii) : list ascii :=
  match rev s with
  | c :: r => if decide (c = newline) then rev r else s
  | [] => s
  end.

(** The library's test for a negative number, [^-\d+$|^-\d*\.\d+$]. *)
Definition is_negative_number (tok : string) : bool :=
  match without_final_newline (list_ascii_of_string tok) with
  | "-"%char :: r =>
      let '(ds, r') := span_digits r in
      match r' with
      | [] => nonempty ds
      | "."%char :: fs => nonempty fs && forallb is_digit fs
      | _ => false
      end
  | _ => false
  end.

(** What an option string stands for: the built-in help or a declared
    argument. *)
Inductive parser_action : Type :=
| Help
| Act (a : Argument).

(** The option strings of the parser, the help option first. *)
Definition option_string_actions (parser : list Argument)
    : list (string * parser_action) :=
  [("-h", Help); ("--help", Help)] ++ map (λ a, (option_string a, Act a)) parser.

(** [self._option_string_actions.get(s)] *)
Definition lookup_option (parser : list Argument) (s : string)
    : option parser_action :=
  (λ found, found.2.2) <$> list_find (λ entry, entry.1 = s) (option_string_actions parser).

(** [s.split('=', 1)] when [s] holds an equals sign. *)
Fixpoint split_at_equals (s : list ascii) : option (list ascii * list ascii) :=
  match s with
  | [] => None
  | c :: s' =>
      if decide (c = "="%char) then Some ([], s')
      else (λ parts, (c :: parts.1, parts.2)) <$> split_at_equals s'
  end.

(** How one command-line string is read: as an argument, as the [--]
    separator, or as an option, resolved to an action or not, with the
    argument attached to it, if any. *)
Inductive token_class : Type :=
| ClsArgument
| ClsSeparator
| ClsOption (action : option parser_action) (explicit_arg : option string).

(** [_get_option_tuples]: the options a string may abbreviate.  A string in
    two dashes is cut at its first equals sign and matches the options it
    is a prefix of; a string in one dash matches the option made of its
    first two characters, the rest being the argument. *)
Definition get_option_tuples (parser : list Argument) (arg_string : string)
    : list (parser_action * option string) :=
  match list_ascii_of_string arg_string with
  | "-"%char :: "-"%char :: _ =>
      let '(option_prefix, explicit_arg) :=
        match split_at_equals (list_ascii_of_string arg_string) with
        | Some (before, after) =>
            (string_of_list_ascii before, Some (string_of_list_ascii after))
        | None => (arg_string, None)
        end in
      omap (λ entry, if String.prefix option_prefix entry.1
                     then Some (entry.2, explicit_arg) else None)
        (option_string_actions parser)
  | "-"%char :: c :: rest =>
      omap (λ entry,
              if String.eqb entry.1 (string_of_list_ascii ["-"%char; c])
              then Some (entry.2, Some (string_of_list_ascii rest))
              else if String.prefix arg_string entry.1
                   then Some (entry.2, None) else None)
        (option_string_actions parser)
  | _ => []
  end.

(** [_parse_optional] *)
Definition parse_optional (parser : list Argument) (arg_string : string)
    : result token_class :=
  match list_ascii_of_string arg_string with
  | "-"%char :: rest =>
      match lookup_option parser arg_string with
      | Some action => Ok (ClsOption (Some action) None)
      | None =>
          match rest with
          | [] => Ok ClsArgument
          | _ =>
              match
                match split_at_equals (list_ascii_of_string arg_string) with
                | Some (before, after) =>
                    (λ action, (action, string_of_list_ascii after))
                      <$> lookup_option parser (string_of_list_ascii before)
                | None => None
                end
              with
              | Some (action, explicit_arg) =>
                  Ok (ClsOption (Some action) (Some explicit_arg))
              | None =>
                  match get_option_tuples parser arg_string with
                  | _ :: _ :: _ => Raise (SystemExit 2)
                  | [(action, explicit_arg)] =>
                      Ok (ClsOption (Some action) explicit_arg)
                  | [] =>
                      if is_negative_number arg_string then Ok ClsArgument
                      else if bool_decide (" "%char ∈ list_ascii_of_string arg_string)
                           then Ok ClsArgument
                           else Ok (ClsOption None None)
                  end
              end
          end
      end
  | _ => Ok ClsArgument
  end.

(** The first pass over the command line: every string is classified
    before any option takes effect, and everything after [--] is an
    argument. *)
Fixpoint classify (parser : list Argument) (argv : list string)
    : result (list (string * token_class)) :=
  match argv with
  | [] => Ok []
  | arg_string :: rest =>
      if String.eqb arg_string "--"
      then Ok ((arg_string, ClsSeparator) :: map (λ s, (s, ClsArgument)) rest)
      else
        cls ← parse_optional parser arg_string;
        classes ← classify parser rest;
        Ok ((arg_string, cls) :: classes)
  end.

(** The digits of a float literal: digits grouped by single underscores. *)
Definition digit_part (s : list ascii) : option (list ascii * list ascii) :=
  let '(run, rest) := span_digit_run s in
  match ungroup run false with
  | Some _ => Some (run, rest)
  | None => None
  end.

Definition lower_string (s : list ascii) : string :=
  string_of_list_ascii (map lower_ascii s).

(** [float(s)] succeeds: whitespace around the literal is skipped, one sign
    is allowed, then either [inf], [infinity] or [nan] in any case, or
    digits with an optional fraction (one of the two may be missing) and an
    optional exponent. *)
Definition is_float_literal (s : string) : bool :=
  let body := skip_ascii_spaces (list_ascii_of_string s) in
  let unsigned :=
    match body with
    | "-"%char :: r => r
    | "+"%char :: r => r
    | _ => body
    end in
  let trimmed := rev (skip_ascii_spaces (rev unsigned)) in
  let word := lower_string trimmed in
  if bool_decide (word ∈ ["inf"; "infinity"; "nan"]) then true
  else
    let after_integer :=
      match trimmed with
      | "."%char :: _ => Some (false, trimmed)
      | _ => (λ parts, (true, parts.2)) <$> digit_part trimmed
      end in
    match after_integer with
    | None => false
    | Some (has_integer, r1) =>
        let after_fraction :=
          match r1 with
          | "."%char :: r =>
              match r with
              | c :: _ =>
                  if is_digit c
                  then (λ parts, (true, parts.2)) <$> digit_part r
                  else Some (false, r)
              | [] => Some (false, r)
              end
          | _ => Some (false, r1)
          end in
        match after_fraction with
        | None => false
        | Some (has_fraction, r2) =>
            (has_integer || has_fraction) &&
            match r2 with
            | [] => true
            | e :: r3 =>
                (bool_decide (e = "e"%char) || bool_decide (e = "E"%char)) &&
                let exponent :=
                  match r3 with
                  | "-"%char :: r => r
                  | "+"%char :: r => r
                  | _ => r3
                  end in
                match digit_part exponent with
                | Some (_, []) => true
                | _ => false
                end
            end
        end
    end.

(** Conversion of one argument string by [type=], then the [choices=]
    check. *)
Definition convert (a : Argument) (arg_string : string) : result argval :=
  match
    match type_ a with
    | type_str => Ok (AStr arg_string)
    | type_int =>
        match int_of_str arg_string with
        | Ok z => Ok (AInt z)
        | Raise _ => Raise (SystemExit 2)
        end
    | type_float =>
        if is_float_literal arg_string
        then Ok (AFloat arg_string) else Raise (SystemExit 2)
    end
  with
  | Ok v =>
      match choices_ a with
      | Some allowed =>
          if bool_decide (arg_string ∈ allowed) then Ok v else Raise (SystemExit 2)
      | None => Ok v
      end
  | Raise e => Raise e
  end.

(** What the parser is waiting for after the strings read so far. *)
Inductive pending : Type :=
| Idle
| NeedValue (a : Argument)
| Gathering (a : Argument) (acc : list string).

(** The parse so far: the namespace, the attributes of the options seen and
    the strings no option accounts for. *)
Record parse_state : Type := ParseState {
  ns : namespace;
  seen : list string;
  extras : list string;
}.

(** The attribute a pending option will store into. *)
Definition pending_dest (st : pending) : option string :=
  match st with
  | Idle => None
  | NeedValue a => Some (dest a)
  | Gathering a _ => Some (dest a)
  end.

(** An option that was gathering arguments stores what it gathered. *)
Definition close_pending (st : pending) (ps : parse_state) : parse_state :=
  match st with
  | Gathering a acc =>
      ParseState (<[dest a := AList acc]> (ns ps)) (seen ps) (extras ps)
  | _ => ps
  end.

Definition store_value (a : Argument) (v : argval) (ps : parse_state)
    : parse_state :=
  ParseState (<[dest a := v]> (ns ps)) (dest a :: seen ps) (extras ps).

(** An option without attached argument has been read. *)
Definition start_option (a : Argument) (ps : parse_state)
    : pending * parse_state :=
  match action a with
  | store_true => (Idle, store_value a (ABool true) ps)
  | store_false => (Idle, store_value a (ABool false) ps)
  | store =>
      let ps' := ParseState (ns ps) (dest a :: seen ps) (extras ps) in
      if nargs_star a then (Gathering a [], ps') else (NeedValue a, ps')
  end.

(** An option with an attached argument has been read: a flag refuses it,
    any other option takes it as its only argument.  The library drops an
    argument that reads [--] before converting, which leaves the option
    with an empty list.  Gathered arguments stay strings: the parser
    declares no conversion for them. *)
Definition attached_option (a : Argument) (explicit_arg : string)
    (ps : parse_state) : result parse_state :=
  match action a with
  | store =>
      if String.eqb explicit_arg "--" then Ok (store_value a (AList []) ps)
      else
        v ← convert a explicit_arg;
        Ok (store_value a
              (if nargs_star a then AList [explicit_arg] else v) ps)
  | _ => Raise (SystemExit 2)
  end.

(** The help option.  An argument attached to [--help] is refused; what is
    attached to [-h] is read as further one-letter options, so that [-hh]
    is the help option again and anything else is refused. *)
Definition help_option (arg_string : string) (explicit_arg : option string)
    : exn :=
  match explicit_arg with
  | None => SystemExit 0
  | Some e =>
      if negb (String.prefix "--" arg_string)
         && nonempty (list_ascii_of_string e)
         && forallb (λ c, bool_decide (c = "h"%char)) (list_ascii_of_string e)
      then SystemExit 0 else SystemExit 2
  end.

(** The argument a command-line string stands for, when it is read as one
    of the declared options. *)
Definition option_of (cls : token_class) : option Argument :=
  match cls with
  | ClsOption (Some (Act a)) _ => Some a
  | _ => None
  end.

(** One string of the command line takes effect: the argument of the
    pending option, one more argument of a gathering option, the help
    option, a declared option without or with an attached argument, or a
    string no option accounts for. *)
Definition consume_one (arg_string : string) (cls : token_class)
    (st : pending) (ps : parse_state) : result (pending * parse_state) :=
  match st, cls with
  | NeedValue a, ClsArgument =>
      v ← convert a arg_string;
      Ok (Idle, ParseState (<[dest a := v]> (ns ps)) (seen ps) (extras ps))
  | NeedValue _, _ => Raise (SystemExit 2)
  | Gathering a acc, ClsArgument => Ok (Gathering a (acc ++ [arg_string]), ps)
  | _, ClsOption (Some Help) explicit_arg =>
      Raise (help_option arg_string explicit_arg)
  | _, ClsOption (Some (Act a)) None => Ok (start_option a (close_pending st ps))
  | _, ClsOption (Some (Act a)) (Some explicit_arg) =>
      ps' ← attached_option a explicit_arg (close_pending st ps);
      Ok (Idle, ps')
  | _, _ =>
      let ps1 := close_pending st ps in
      Ok (Idle, ParseState (ns ps1) (seen ps1) (extras ps1 ++ [arg_string]))
  end.

(** The second pass: the strings take effect from left to right; at the
    end an option still waiting for its argument is an error. *)
Fixpoint consume (classes : list (string * token_class))
    (st : pending) (ps : parse_state) : result parse_state :=
  match classes with
  | [] =>
      match st with
      | NeedValue _ => Raise (SystemExit 2)
      | _ => Ok (close_pending st ps)
      end
  | (arg_string, cls) :: rest =>
      next ← consume_one arg_string cls st ps;
      consume rest next.1 next.2
  end.

(** Every attribute starts at its default. *)
Definition initial_namespace (parser : list Argument) : namespace :=
  fold_left (λ n a, <[dest a := default_ a]> n) parser ∅.

(** [parser.parse_args(argv)]: after the two passes, a missing required
    option and strings left unaccounted for are usage errors. *)
Definition parse_args (parser : list Argument) (argv : list string)
    : result namespace :=
  classes ← classify parser argv;
  ps ← consume classes Idle (ParseState (initial_namespace parser) [] []);
  if forallb (λ a, negb (required a) || bool_decide (dest a ∈ seen ps)) parser
     && negb (nonempty (extras ps))
  then Ok (ns ps)
  else Raise (SystemExit 2).

(** ** [cli/run_acs_benchmark.py]: the script *)

(** Modelled from the spec: [BenchmarkConfig] belongs to the benchmark
    module, outside the sources embedded here; it is the record of the
    keyword arguments the script passes. *)
Record BenchmarkConfig : Type := mkBenchmarkConfig {
  few_shot : argval;
  chat_prompt : argval;
  direct_risk_prompting : argval;
  reuse_few_shot_examples : argval;
  batch_size : argval;
  context_size : argval;
  correct_order_bias : bool;
  feature_subset : option (list string);
  population_filter : option (gmap string string);
  seed : argval;
}.

(** The calls of the script that leave this code base: creating the results
    directory, the [ipdb] breakpoint and loading the model. *)
Record externals : Type := Externals {
  mkdir : argval → result unit;
  set_trace : unit → result unit;
  load_model_tokenizer : argval → result unit;
}.

(** [args.x] *)
Definition getattr (args : namespace) (x : string) : result argval :=
  match args !! x with
  | Some v => Ok v
  | None => Raise (AttributeError x)
  end.

(** [s.split(sep)] for a one-character separator; [cur] holds the current
    piece reversed. *)
Fixpoint split_on (sep : ascii) (cur : list ascii) (s : list ascii)
    : list string :=
  match s with
  | [] => [string_of_list_ascii (rev cur)]
  | c :: s' =>
      if decide (c = sep)
      then string_of_list_ascii (rev cur) :: split_on sep [] s'
      else split_on sep (c :: cur) s'
  end.

(** The loop filling [population_filter_dict]. *)
Fixpoint fill_population_filter (filters : list string)
    (d : gmap string string) : result (gmap string string) :=
  match filters with
  | [] => Ok d
  | filter_str :: rest =>
      match split_on "="%char [] (list_ascii_of_string filter_str) with
      | [col_name; col_value] =>
          fill_population_filter rest (<[col_name := col_value]> d)
      | [_] => Raise (ValueError "not enough values to unpack (expected 2, got 1)")
      | _ => Raise (ValueError "too many values to unpack (expected 2)")
      end
  end.

(** [tuple(x)] *)
Definition tuple (x : argval) : result (list string) :=
  match x with
  | AList l => Ok l
  | AStr s => Ok ((λ c, String c "") <$> list_ascii_of_string s)
  | ANone => Raise (TypeError "'NoneType' object is not iterable")
  | ABool _ => Raise (TypeError "'bool' object is not iterable")
  | AInt _ => Raise (TypeError "'int' object is not iterable")
  | AFloat _ => Raise (TypeError "'float' object is not iterable")
  end.

(** [t or None] for a tuple [t] *)
Definition or_None (t : list string) : option (list string) :=
  match t with
  | [] => None
  | _ => Some t
  end.

(** The script from its start to the construction of the configuration;
    the logging calls are left out, and what follows (creating and running
    the benchmark) belongs to other modules. *)
Definition main (env : externals) (argv : list string) : result BenchmarkConfig :=
  let parser := setup_arg_parser in
  args ← parse_args parser argv;
  results_dir ← getattr args "results_dir";
  mkdir env results_dir;;
  use_population_filter ← getattr args "use_population_filter";
  population_filter_dict ←
    (if truthy use_population_filter then
       set_trace env tt;;
       filters ← tuple use_population_filter;
       Some <$> fill_population_filter filters ∅
     else Ok None);
  model ← getattr args "model";
  load_model_tokenizer env model;;
  few_shot_ ← getattr args "few_shot";
  chat_prompt_ ← getattr args "chat_prompt";
  direct_risk_prompting_ ← getattr args "direct_risk_prompting";
  reuse_few_shot_examples_ ← getattr args "reuse_few_shot_examples";
  batch_size_ ← getattr args "batch_size";
  context_size_ ← getattr args "context_size";
  dont_correct_order_bias ← getattr args "dont_correct_order_bias";
  use_feature_subset ← getattr args "use_feature_subset";
  feature_subset_ ← tuple use_feature_subset;
  seed_ ← getattr args "seed";
  Ok (mkBenchmarkConfig few_shot_ chat_prompt_ direct_risk_prompting_
        reuse_few_shot_examples_ batch_size_ context_size_
        (negb (truthy dont_correct_order_bias))
        (or_None feature_subset_)
        population_filter_dict seed_).

(** ** Processes and sample inputs *)

(** What happens to the state of a process between two observations: a
    call of [parse_pums_code], or a change of the files on disk made by
    anyone. *)
Inductive event : Type :=
| Call (v : value) (file : string) (postprocess : option (string → result string))
| DiskChange (new_disk : gmap string file).

Definition step (w : world) (e : event) : world :=
  match e with
  | Call v file postprocess => (parse_pums_code v file postprocess w).2
  | DiskChange d => World d (cache w) (reads w) (log w)
  end.

Definition run (w : world) (es : list event) : world := fold_left step es w.

(** A process that has just started: nothing cached, read or logged. *)
Definition fresh_process (d : gmap string file) : world := World d ∅ [] [].




(** What a line contributes to the table: nothing when it does not match
    [line_re], an entry otherwise, unless the transform or the conversion
    of the code raises. *)
Definition entry_of (postprocess : option (string → result string))
    (line : string) : result (option (Z * string)) :=
  match re_match line_re line with
  | None => Ok None
  | Some m =>
      text ← apply_postprocess postprocess (group m "description");
      key ← int_of_str (group m "code");
      Ok (Some (key, text))
  end.

(** The table built from the lines of a file, without the logging. *)
Fixpoint load_table (postprocess : option (string → result string))
    (lines : list string) (t : gmap Z string) : result (gmap Z string) :=
  match lines with
  | [] => Ok t
  | line :: rest =>
      entry ← entry_of postprocess line;
      load_table postprocess rest
        (match entry with
         | Some (code, description) => <[code := description]> t
         | None => t
         end)
  end.

(** The integer the digits of a matching line stand for. *)
Definition line_code (line : string) : option Z :=
  m ← re_match line_re line;
  Some (int_of_digits (list_ascii_of_string (group m "code"))).

(** A line the loop gets past: if it matches [line_re], its code has no
    more digits than [int] accepts and the transform returns on its
    description. *)
Definition line_loads (postprocess : option (string → result string))
    (line : string) : Prop :=
  ∀ m, re_match line_re line = Some m →
    (String.length (group m "code") ≤ int_max_str_digits)%nat ∧
    ∃ text, apply_postprocess postprocess (group m "description") = Ok text.

(** What [parse_pums_code] answers from a table. *)
Definition answer (t : gmap Z string) (v : value) : string :=
  default "N/A" (code_lookup t v).

Definition end_of_line : string := String newline "".

(** Importing [acs_columns] and rendering a value with the column bound to
    a name of the module. *)
Definition render_registry_column (py_name : string) (v : value) : M string :=
  globals ← import_acs_columns;
  match globals !! py_name with
  | Some column => get_text column v
  | None => raise (AttributeError py_name)
  end.

(** Collaborators that never fail. *)
Definition all_succeed : externals :=
  Externals (λ _, Ok tt) (λ _, Ok tt) (λ _, Ok tt).

(** The four required options. *)
Definition required_argv : list string :=
  ["--model"; "m"; "--task-name"; "ACSIncome"; "--results-dir"; "results";
   "--data-dir"; "data"].

(** A command-line string that the parser reads as the option [option_name]:
    the option string itself, an unambiguous abbreviation of it, or either
    with an argument attached by an equals sign. *)
Definition reads_as (parser : list Argument) (option_name : string)
    (arg_string : string) : bool :=
  match parse_optional parser arg_string with
  | Ok cls =>
      match option_of cls with
      | Some a => String.eqb (option_string a) option_name
      | None => false
      end
  | Raise _ => false
  end.

(** The option [option_name] is passed on the command line: one of the strings
    before the separator [--], if there is one, reads as it. *)
Fixpoint passed (parser : list Argument) (argv : list string)
    (option_name : string) : bool :=
  match argv with
  | [] => false
  | arg_string :: rest =>
      if String.eqb arg_string "--" then false
      else reads_as parser option_name arg_string || passed parser rest option_name
  end.

(** Upper-case ASCII letters, the characters [str.lower] changes. *)
Definition is_upper (c : ascii) : bool :=
  let n := nat_of_ascii c in (65 <=? n)%nat && (n <=? 90)%nat.

(** ** Proof automation *)

(** Unfolds the sequencing of [M] in the goal. *)
Ltac unfold_M := unfold mbind, mret, M_bind, M_ret, raise; cbn beta iota.

(** * Properties *)

(** ** Dictionaries *)

Section PydictFacts.
Context {A : Type}.
Implicit Types (d : pydict A) (k : value) (a : A).


Lemma dict_get_elem_of d k a : dict_wf d → (k, a) ∈ d → dict_get d k = Some a.
Proof.
  unfold dict_wf. induction d as [|[k' a'] d IH]; simpl.
  - intros _ Hin. by apply elem_of_nil in Hin.
  - intros [Hfresh Hnd]%NoDup_cons [Heq | Hin]%elem_of_cons.
    + inversion Heq; subst. by destruct (decide (k' = k')).
    + destruct (decide (k' = k)) as [->|]; [|auto].
      exfalso. apply Hfresh. apply list_elem_of_fmap. by exists (k, a).
Qed.

Lemma dict_get_Some_elem_of d k a : dict_get d k = Some a → (k, a) ∈ d.
Proof.
  induction d as [|[k' a'] d IH]; simpl; [done|].
  destruct (decide (k' = k)) as [->|].
  - intros [= ->]. apply elem_of_cons; by left.
  - intros H. apply elem_of_cons; right; auto.
Qed.


Lemma dict_set_keys d k a :
  (dict_set d k a).*1 = if decide (k ∈ d.*1) then d.*1 else d.*1 ++ [k].
Proof.
  induction d as [|[k' a'] d IH]; cbn [dict_set].
  - destruct (decide (k ∈ ([] : pydict A).*1)) as [Hin|]; [|done].
    by apply elem_of_nil in Hin.
  - destruct (decide (k' = k)) as [->|Hne]; rewrite !fmap_cons; cbn [fst].
    + rewrite decide_True; [done | apply elem_of_cons; by left].
    + rewrite IH. destruct (decide (k ∈ d.*1)) as [Hin|Hnin].
      * rewrite decide_True; [done | apply elem_of_cons; by right].
      * rewrite decide_False; [done|].
        intros [?|?]%elem_of_cons; congruence.
Qed.

Lemma dict_set_wf d k a : dict_wf d → dict_wf (dict_set d k a).
Proof.
  unfold dict_wf. intros Hnd. rewrite dict_set_keys.
  destruct (decide (k ∈ d.*1)); [done|].
  apply NoDup_app. split_and!; [done | | apply NoDup_singleton].
  intros x Hx ->%list_elem_of_singleton. done.
Qed.

Lemma fold_dict_set_wf (items : list (value * A)) d :
  dict_wf d → dict_wf (fold_left (λ d kv, dict_set d kv.1 kv.2) items d).
Proof.
  revert d. induction items as [|[k a] items IH]; simpl; [done|].
  intros d Hd. apply IH. by apply dict_set_wf.
Qed.

(** A dictionary display always satisfies the representation invariant. *)
Lemma dict_of_items_wf (items : list (value * A)) : dict_wf (dict_of_items items).
Proof. apply fold_dict_set_wf. apply NoDup_nil_2. Qed.


End PydictFacts.

(** ** The lookup and rendering contracts of [ColumnToText] *)


(** C2. Construction raises [ValueError] exactly when no value map is given
    and either no question is given as well or the question is not a
    multiple-choice question; for every other combination of arguments it
    returns an instance carrying the given name, description, verb and fill
    and a value map. *)
Theorem init_raises_exactly (name_ short_description_ : string)
    (value_map_ : option value_map_t) (question_ : option QAInterface)
    (connector_verb missing_value_fill : string) (w : world) :
  let outcome :=
    (__init__ name_ short_description_ value_map_ question_
       connector_verb missing_value_fill w).1 in
  let misconfigured :=
    value_map_ = None ∧
    (question_ = None ∨
     ∃ q, question_ = Some q ∧ is_MultipleChoiceQA q = false) in
  ((∃ msg, outcome = Raise (ValueError msg)) ↔ misconfigured) ∧
  (¬ misconfigured →
   ∃ self, outcome = Ok self ∧
     _name self = name_ ∧ _short_description self = short_description_ ∧
     _connector_verb self = connector_verb ∧
     _missing_value_fill self = missing_value_fill ∧
     is_Some (_value_map self)).
Proof.
  cbv zeta. unfold __init__.
  destruct question_ as [q|]; [destruct (is_MultipleChoiceQA q) eqn:Hmc|];
    (destruct value_map_ as [[d|f|d f|type_name]|]); unfold_M; cbn.
  all: try solve [ split;
                   [ split; [intros [msg [=]] | by intros [[=] _]]
                   | intros _; eexists; by split_and! ] ].
  - split; [split; [intros [msg [=]] |] | intros _; eexists; by split_and!].
    intros [_ [[=] | (q' & [= <-] & Hq')]]. congruence.
  - assert (@None value_map_t = None ∧
            (Some q = None ∨
             ∃ q', Some q = Some q' ∧ is_MultipleChoiceQA q' = false))
      as Hmis by (split; [done|]; right; by exists q).
    split; [split; [done | intros _; by eexists] | by intros []].
  - assert (@None value_map_t = None ∧
            (@None QAInterface = None ∨
             ∃ q', None = Some q' ∧ is_MultipleChoiceQA q' = false))
      as Hmis by (split; [done|]; by left).
    split; [split; [done | intros _; by eexists] | by intros []].
Qed.

(** C8. [get_text] returns exactly "The ", the short description, a space,
    the connector verb, a space, the text the lookup returned and a full
    stop, in the state the lookup left; when the lookup raises, so does
    [get_text]. *)
Theorem get_text_sentence (self : ColumnToText) (v : value) (w : world) :
  get_text self v w =
    match __getitem__ self v w with
    | (Ok value_text, w') =>
        (Ok ("The " +:+ _short_description self +:+ " "
             +:+ _connector_verb self +:+ " " +:+ value_text +:+ "."), w')
    | (Raise e, w') => (Raise e, w')
    end.
Proof.
  unfold get_text. unfold_M.
  by destruct (__getitem__ self v w) as [[value_text|e] w'].
Qed.

(** ** The ACS columns *)

(** C6. Importing the module of ACS columns stops at the definition of the
    column [PINCP], which passes neither a value map nor a question: the
    constructor raises its configuration error there, in every state, and
    no registry is produced. *)
Theorem import_acs_columns_raises (w : world) :
  acs_income_PINCP w =
    (Raise (ValueError
       "Must provide either a `value_map` or a `question` for column 'PINCP' but neither was provided."),
     w) ∧
  import_acs_columns w =
    (Raise (ValueError
       "Must provide either a `value_map` or a `question` for column 'PINCP' but neither was provided."),
     w).
Proof. split; reflexivity. Qed.

(** Every other definition of the module constructs its mapper. *)
Lemma other_columns_construct (w : world) :
  Forall (λ def, def.2 = acs_income_PINCP ∨ ∃ column, def.2 w = (Ok column, w))
    column_definitions.
Proof.
  unfold column_definitions.
  repeat (apply Forall_cons; split;
          [first [by left | right; eexists; reflexivity]|]).
  apply Forall_nil_2.
Qed.

(** Taken out of the module and evaluated on their own, the definitions of
    [RAC1P] and [PINCP_binary] construct their mappers in any state, and
    these render 6, 1 and 0, 1 as the four sentences without raising or
    changing the state.  For [PINCP_binary] this rests on the mapping that
    [qa_interface] derives from the inline question. *)
Lemma definitions_render_alone (w : world) :
  (∃ rac1p, acs_race w = (Ok rac1p, w) ∧
     ∀ w', get_text rac1p (VInt 6) w' = (Ok "The race is Asian.", w') ∧
           get_text rac1p (VInt 1) w' = (Ok "The race is White.", w')) ∧
  (∃ pincp_binary, acs_income_PINCP_binary w = (Ok pincp_binary, w) ∧
     ∀ w', get_text pincp_binary (VInt 0) w'
             = (Ok "The yearly income is Below $50,000.", w') ∧
           get_text pincp_binary (VInt 1) w'
             = (Ok "The yearly income is Above $50,000.", w')).
Proof.
  split; (eexists; split; [reflexivity | intros w'; split; reflexivity]).
Qed.

(** C9. The registry has no mapper to render with.  The mappers are
    reached through the module, and importing the module raises at the
    definition of [PINCP], after [acs_race] is bound and before the
    definition of [PINCP_binary] is evaluated: rendering any value with the
    column bound to any name of the module, [acs_race] and [acs_income]
    among them, raises the configuration error of [PINCP] in every state,
    where the four sentences were to be returned. *)
Theorem registry_rendering_raises (py_name : string) (v : value) (w : world) :
  render_registry_column py_name v w =
    (Raise (ValueError
       "Must provide either a `value_map` or a `question` for column 'PINCP' but neither was provided."),
     w) ∧
  ∃ globals,
    exec_definitions (take 10 column_definitions) ∅ w = (Ok globals, w) ∧
    is_Some (globals !! "acs_race") ∧
    globals !! "acs_income" = None ∧
    column_definitions !! 10%nat = Some ("acs_income", acs_income_PINCP) ∧
    column_definitions !! 11%nat = Some ("acs_income", acs_income_PINCP_binary).
Proof.
  split; [reflexivity|].
  eexists. split; [reflexivity|].
  split_and!; [| reflexivity..].
  rewrite lookup_insert_eq. by eexists.
Qed.

(** ** Mappings and questions *)

(** The choices of a synthesised question are the items of the
    dictionary. *)
Lemma choice_pairs_of_synthesised_question (d : pydict string)
    (column attribute : string) :
  choice_pairs (create_question_from_value_map column d attribute) = d.
Proof.
  unfold create_question_from_value_map, choice_pairs, dict_items.
  cbn [choices_of]. rewrite <- list_fmap_compose.
  erewrite list_fmap_ext; [apply list_fmap_id | by intros ? []].
Qed.



Section RoundTrip.
Implicit Types (items d : pydict string) (k : value) (a : string).

Lemma dict_get_dict_set d k a k' :
  dict_get (dict_set d k a) k' = if decide (k = k') then Some a else dict_get d k'.
Proof.
  induction d as [|[k0 a0] d IH]; cbn [dict_set dict_get]; [done|].
  destruct (decide (k0 = k)) as [-> | Hne]; cbn [dict_get].
  - by destruct (decide (k = k')).
  - rewrite IH. destruct (decide (k0 = k')) as [-> | ?]; [|done].
    by rewrite decide_False.
Qed.

(** Storing items one after the other leaves, for each key, the value of
    its last item. *)
Lemma dict_get_fold_dict_set items d k :
  dict_get (fold_left (λ d kv, dict_set d kv.1 kv.2) items d) k =
    match last (filter (λ kv, kv.1 = k) items) with
    | Some kv => Some kv.2
    | None => dict_get d k
    end.
Proof.
  revert d. induction items as [|[k0 a0] items IH]; intros d; [done|].
  cbn [fold_left fst snd]. rewrite IH, dict_get_dict_set.
  destruct (decide (k0 = k)) as [-> | Hne].
  - rewrite (filter_cons_True (λ kv : value * string, kv.1 = k)) by done.
    rewrite last_cons. by destruct (last _).
  - by rewrite (filter_cons_False (λ kv : value * string, kv.1 = k)).
Qed.

(** For an arbitrary multiple-choice question the round trip through the
    mapping keeps the (raw value, display text) pairs, as a set, exactly
    when no raw value of the question stands for two display texts. *)
Lemma round_trip_iff_value_determines_text (q : QAInterface)
    (column attribute : string) :
  (∀ pair,
     pair ∈ choice_pairs q ↔
     pair ∈ choice_pairs
              (create_question_from_value_map column
                 (get_value_to_text_map q) attribute)) ↔
  (∀ v t1 t2,
     (v, t1) ∈ choice_pairs q → (v, t2) ∈ choice_pairs q → t1 = t2).
Proof.
  rewrite choice_pairs_of_synthesised_question. unfold get_value_to_text_map.
  generalize (choice_pairs q) as items. intros items.
  pose proof (dict_of_items_wf items) as Hwf.
  assert (∀ k, dict_get (dict_of_items items) k =
               (λ kv, kv.2) <$> last (filter (λ kv, kv.1 = k) items)) as Hget.
  { intros k. unfold dict_of_items. rewrite dict_get_fold_dict_set.
    by destruct (last _). }
  assert (∀ k a, (k, a) ∈ dict_of_items items →
                 (k, a) ∈ items) as Hstored.
  { intros k a Hin. apply (dict_get_elem_of _ _ _ Hwf) in Hin.
    rewrite Hget in Hin.
    destruct (last (filter (λ kv, kv.1 = k) items)) as [[k' a']|] eqn:Hlast;
      [|done].
    injection Hin as <-. apply last_Some_elem_of in Hlast.
    apply list_elem_of_filter in Hlast as [Hk Hin]. cbn in Hk. by subst k'. }
  split.
  - intros Hsame v t1 t2 H1%Hsame H2%Hsame.
    apply (dict_get_elem_of _ _ _ Hwf) in H1, H2. congruence.
  - intros Hfun [k a]. split; [|apply Hstored].
    intros Hin. apply dict_get_Some_elem_of. rewrite Hget.
    destruct (last (filter (λ kv, kv.1 = k) items)) as [[k' a']|] eqn:Hlast.
    + pose proof Hlast as Hin'. apply last_Some_elem_of in Hin'.
      apply list_elem_of_filter in Hin' as [Hk Hin']. cbn in Hk. subst k'.
      cbn. f_equal. by apply (Hfun k).
    + apply last_None in Hlast.
      assert ((k, a) ∈ filter (λ kv, kv.1 = k) items) as Hfiltered
        by (by apply list_elem_of_filter).
      rewrite Hlast in Hfiltered. by apply elem_of_nil in Hfiltered.
Qed.
End RoundTrip.

(** ** The line pattern of the code tables *)

Section Pattern.
Context {R : Type}.
Implicit Types (p : ascii → bool) (k : list ascii → option R).

(** A run that cannot be extended and after which the continuation succeeds
    is the run [p+] takes. *)
Lemma match_plus_greedy p (xs rest : list ascii) k (r : R) :
  xs ≠ [] →
  forallb p xs = true →
  match rest with [] => True | c :: _ => p c = false end →
  k rest = Some r →
  match_plus p (xs ++ rest) k = Some r.
Proof.
  intros Hne Hall Hstop Hk. induction xs as [|x xs IH]; [done|].
  cbn in Hall. apply andb_true_iff in Hall as [Hx Hall].
  cbn [app match_plus]. rewrite Hx.
  destruct xs as [|x' xs].
  - cbn [app]. destruct rest as [|c rest]; cbn [match_plus].
    + done.
    + by rewrite Hstop.
  - by rewrite IH.
Qed.

(** Whatever [p+] matches is a non-empty run of the class, and the
    continuation succeeded on what follows it. *)
Lemma match_plus_inv p (s : list ascii) k (r : R) :
  match_plus p s k = Some r →
  ∃ xs rest, s = xs ++ rest ∧ xs ≠ [] ∧ forallb p xs = true ∧ k rest = Some r.
Proof.
  induction s as [|c s IH]; cbn [match_plus]; [done|].
  destruct (p c) eqn:Hc; [|done].
  destruct (match_plus p s k) as [r'|] eqn:Hlonger.
  - intros [= ->]. destruct (IH eq_refl) as (xs & rest & -> & _ & Hall & Hk).
    exists (c :: xs), rest. split_and!; [done | done | | done].
    cbn. by rewrite Hc.
  - intros Hk. exists [c], s. split_and!; [done | done | | done].
    cbn. by rewrite Hc.
Qed.
End Pattern.

Lemma is_space_not_digit (c : ascii) : is_space c = true → is_digit c = false.
Proof.
  unfold is_space, is_digit. cbv zeta.
  generalize (nat_of_ascii c) as n. intros n.
  rewrite orb_true_iff, !andb_true_iff, andb_false_iff, !Nat.leb_le, !Nat.leb_gt.
  lia.
Qed.

Lemma is_dot_not_space (c : ascii) : is_dot c = true → is_space c = false.
Proof. unfold is_dot. intros ->%bool_decide_eq_true. reflexivity. Qed.

Lemma take_matched_prefix {A : Type} (xs rest : list A) :
  take (length (xs ++ rest) - length rest) (xs ++ rest) = xs.
Proof.
  rewrite length_app.
  replace (length xs + length rest - length rest)%nat with (length xs) by lia.
  by rewrite take_app_length.
Qed.

(** The match of a well-formed line and its two groups. *)
Lemma line_re_match (ds ws desc tail : list ascii) :
  ds ≠ [] → forallb is_digit ds = true →
  ws ≠ [] → forallb is_space ws = true →
  desc ≠ [] → forallb any_but_newline desc = true →
  tail = [] ∨ tail = [newline] →
  ∃ m,
    re_match line_re
      (string_of_list_ascii (ds ++ ws ++ "."%char :: desc ++ tail)) = Some m ∧
    group m "code" = string_of_list_ascii ds ∧
    group m "description" = string_of_list_ascii desc.
Proof.
  intros Hds Hdigits Hws Hspaces Hdesc Hchars Htail.
  exists [("description"%string, desc); ("code"%string, ds)].
  split; [|split; unfold group; reflexivity].
  unfold re_match, line_re. rewrite list_ascii_of_string_of_list_ascii.
  cbn [re_match_at].
  apply match_plus_greedy; [done | done | |].
  { destruct ws as [|c ws]; [done|]. cbn in Hspaces |- *.
    apply andb_true_iff in Hspaces as [Hc _]. by apply is_space_not_digit. }
  apply match_plus_greedy; [done | done | by cbn |].
  change (is_dot "."%char) with true. cbv iota.
  apply match_plus_greedy; [done | done | |].
  { destruct Htail as [-> | ->]; [done|]. cbn. unfold any_but_newline.
    by rewrite bool_decide_eq_true_2. }
  rewrite (take_matched_prefix ds (ws ++ "."%char :: desc ++ tail)).
  rewrite (take_matched_prefix desc tail).
  destruct Htail as [-> | ->]; [reflexivity|].
  by rewrite decide_True.
Qed.

(** The shape of a line the pattern matches, and its two groups. *)
Lemma line_re_shape (line : string) (m : captures) :
  re_match line_re line = Some m →
  ∃ ds ws desc tail,
    list_ascii_of_string line = ds ++ ws ++ "."%char :: desc ++ tail ∧
    ds ≠ [] ∧ forallb is_digit ds = true ∧
    ws ≠ [] ∧ forallb is_space ws = true ∧
    desc ≠ [] ∧ forallb any_but_newline desc = true ∧
    (tail = [] ∨ tail = [newline]) ∧
    group m "code" = string_of_list_ascii ds ∧
    group m "description" = string_of_list_ascii desc.
Proof.
  unfold re_match, line_re. cbn [re_match_at]. intros Hmatch.
  apply match_plus_inv in Hmatch
    as (ds & rest1 & Hline & Hds & Hdigits & Hmatch).
  apply match_plus_inv in Hmatch
    as (ws & rest2 & -> & Hws & Hspaces & Hmatch).
  destruct rest2 as [|dot rest3]; [done|].
  destruct (is_dot dot) eqn:Hdot; [|done].
  apply bool_decide_eq_true in Hdot as ->.
  apply match_plus_inv in Hmatch
    as (desc & tail & -> & Hdesc & Hchars & Hmatch).
  assert (Htail : (tail = [] ∨ tail = [newline]) ∧
            m = [("description"%string,
                  take (length (desc ++ tail) - length tail) (desc ++ tail));
                 ("code"%string,
                  take (length (list_ascii_of_string line)
                        - length (ws ++ "."%char :: desc ++ tail))
                    (list_ascii_of_string line))]).
  { destruct tail as [|c [|c' tail]]; [| |done].
    - injection Hmatch as <-. by split; [left|].
    - destruct (decide (c = newline)) as [->|]; [|done].
      injection Hmatch as <-. by split; [right|]. }
  destruct Htail as [Htail ->].
  exists ds, ws, desc, tail. split_and!; try done.
  - unfold group. cbn. rewrite Hline.
    by rewrite (take_matched_prefix ds (ws ++ "."%char :: desc ++ tail)).
  - unfold group. cbn. by rewrite (take_matched_prefix desc tail).
Qed.

(** ** The code-table loader *)

Section Literals.
Implicit Types (ds : list ascii) (c : ascii).

Lemma is_digit_not_ascii_space c : is_digit c = true → is_ascii_space c = false.
Proof.
  unfold is_ascii_space, is_digit. cbv zeta.
  generalize (nat_of_ascii c) as n. intros n.
  rewrite andb_true_iff, orb_false_iff, andb_false_iff, !Nat.leb_le,
    !Nat.leb_gt, Nat.eqb_neq.
  lia.
Qed.

Lemma is_digit_not_underscore c : is_digit c = true → c ≠ "_"%char.
Proof. by intros Hc ->. Qed.

Lemma span_digit_run_digits ds :
  forallb is_digit ds = true → span_digit_run ds = (ds, []).
Proof.
  induction ds as [|c ds IH]; [done|]. cbn [forallb span_digit_run].
  intros [Hc Hds]%andb_true_iff. rewrite Hc, IH by done. done.
Qed.

Lemma ungroup_digits ds (after_digit : bool) :
  forallb is_digit ds = true →
  ds ≠ [] ∨ after_digit = true →
  ungroup ds after_digit = Some ds.
Proof.
  revert after_digit. induction ds as [|c ds IH]; intros after_digit.
  - intros _ [? | ->]; done.
  - cbn [forallb ungroup]. intros [Hc Hds]%andb_true_iff _.
    rewrite bool_decide_eq_false_2 by by apply is_digit_not_underscore.
    rewrite IH; [done | done | by right].
Qed.

(** [int] on a run of digits, as [line_re] captures them: the value of the
    digits, unless there are too many. *)
Lemma int_of_str_digits ds :
  ds ≠ [] → forallb is_digit ds = true →
  int_of_str (string_of_list_ascii ds) =
    if (int_max_str_digits <? length ds)%nat
    then Raise (exceeds_int_max_str_digits (length ds))
    else Ok (int_of_digits ds).
Proof.
  intros Hne Hdigits. unfold int_of_str.
  rewrite list_ascii_of_string_of_list_ascii.
  destruct ds as [|c ds]; [done|].
  pose proof Hdigits as Hall.
  cbn [forallb] in Hdigits. apply andb_true_iff in Hdigits as [Hc _].
  cbn [skip_ascii_spaces]. rewrite (is_digit_not_ascii_space c Hc).
  assert (match c :: ds with
          | "-"%char :: r => (true, r)
          | "+"%char :: r => (false, r)
          | _ => (false, c :: ds)
          end = (false, c :: ds)) as ->.
  { clear -Hc. destruct c as [[] [] [] [] [] [] [] []]; try reflexivity;
      discriminate Hc. }
  rewrite (span_digit_run_digits _ Hall).
  rewrite (ungroup_digits _ false Hall) by by left.
  by destruct (int_max_str_digits <? length (c :: ds))%nat.
Qed.
End Literals.

Section Tables.
Implicit Types (t : gmap Z string) (file : string) (line : string).
Implicit Types (postprocess : option (string → result string)).

(** What a matching line contributes, by its digits and its description. *)
Lemma entry_of_match postprocess line (m : captures) :
  re_match line_re line = Some m →
  entry_of postprocess line =
    match apply_postprocess postprocess (group m "description") with
    | Ok text =>
        if (int_max_str_digits <? String.length (group m "code"))%nat
        then Raise (exceeds_int_max_str_digits (String.length (group m "code")))
        else Ok (Some (int_of_digits (list_ascii_of_string (group m "code")), text))
    | Raise e => Raise e
    end.
Proof.
  intros Hm. unfold entry_of. rewrite Hm.
  destruct (line_re_shape line m Hm)
    as (ds & ws & desc & tail & _ & Hds & Hdigits & _ & _ & _ & _ & _ & Hcode & _).
  destruct (apply_postprocess postprocess (group m "description")) as [text|e];
    [|done].
  change (Ok text ≫= ?k) with (k text). cbv beta.
  rewrite Hcode, int_of_str_digits by done.
  rewrite list_ascii_of_string_of_list_ascii.
  assert (String.length (string_of_list_ascii ds) = length ds) as ->.
  { clear. induction ds as [|c ds IH]; [done|]. cbn. by rewrite IH. }
  by destruct (int_max_str_digits <? length ds)%nat.
Qed.

(** A line that loads contributes its entry or nothing. *)
Lemma entry_of_loads postprocess line :
  line_loads postprocess line ↔ ∃ entry, entry_of postprocess line = Ok entry.
Proof.
  unfold line_loads. destruct (re_match line_re line) as [m|] eqn:Hm.
  - rewrite (entry_of_match postprocess line m Hm). split.
    + intros Hloads. destruct (Hloads m eq_refl) as [Hlen [text ->]].
      rewrite (proj2 (Nat.ltb_ge _ _) Hlen). by eexists.
    + intros [entry Hentry] m' [= <-].
      destruct (apply_postprocess postprocess (group m "description"))
        as [text|e]; [|done].
      destruct (int_max_str_digits <? String.length (group m "code"))%nat
        eqn:Hlen; [done|].
      apply Nat.ltb_ge in Hlen. split; [done | by eexists].
  - split; [|done]. intros _. unfold entry_of. rewrite Hm. by eexists.
Qed.

(** The code under which a line is filed is the value of its digits. *)
Lemma line_code_entry postprocess line (code : Z) (text : string) :
  entry_of postprocess line = Ok (Some (code, text)) → line_code line = Some code.
Proof.
  unfold line_code. destruct (re_match line_re line) as [m|] eqn:Hm.
  - rewrite (entry_of_match postprocess line m Hm).
    destruct (apply_postprocess postprocess (group m "description"));
      [|done].
    destruct (int_max_str_digits <? String.length (group m "code"))%nat;
      [done|].
    by intros [= <- _].
  - unfold entry_of. by rewrite Hm.
Qed.

(** The loop gets through a file exactly when each of its lines loads. *)
Lemma load_table_loads postprocess (lines : list string) t :
  Forall (line_loads postprocess) lines ↔
  ∃ table, load_table postprocess lines t = Ok table.
Proof.
  revert t. induction lines as [|line rest IH]; intros t.
  - split; [by eexists | constructor].
  - cbn [load_table]. rewrite Forall_cons, entry_of_loads. split.
    + intros [[entry ->] Hrest]. cbn. by apply IH.
    + intros [table Hload].
      destruct (entry_of postprocess line) as [entry|e]; [|done].
      split; [by eexists|]. cbn in Hload. eapply IH. by eexists.
Qed.

Lemma load_table_app postprocess (l1 l2 : list string) t :
  load_table postprocess (l1 ++ l2) t =
  load_table postprocess l1 t ≫= load_table postprocess l2.
Proof.
  revert t. induction l1 as [|line l1 IH]; intros t; [done|].
  cbn [app load_table]. destruct (entry_of postprocess line); [|done]. apply IH.
Qed.

(** Lines filed under other codes leave the entry of a code as it is. *)
Lemma load_table_other postprocess (lines : list string) t (code : Z)
    (table : gmap Z string) :
  load_table postprocess lines t = Ok table →
  Forall (λ line, line_code line ≠ Some code) lines →
  table !! code = t !! code.
Proof.
  revert t. induction lines as [|line rest IH]; intros t Hload Hother.
  - by injection Hload as <-.
  - apply Forall_cons in Hother as [Hline Hrest]. cbn [load_table] in Hload.
    destruct (entry_of postprocess line) as [entry|e] eqn:Hentry; [|done].
    cbn in Hload. rewrite (IH _ Hload Hrest).
    destruct entry as [[code' text]|]; [|done].
    apply line_code_entry in Hentry.
    apply lookup_insert_ne. congruence.
Qed.

(** The last line filed under a code decides its entry. *)
Lemma load_table_last postprocess (before after : list string) line
    (code : Z) (text : string) t (table : gmap Z string) :
  load_table postprocess (before ++ [line] ++ after) t = Ok table →
  entry_of postprocess line = Ok (Some (code, text)) →
  Forall (λ line', line_code line' ≠ Some code) after →
  table !! code = Some text.
Proof.
  intros Hload Hentry Hafter. rewrite load_table_app in Hload.
  destruct (load_table postprocess before t) as [t1|]; [|done].
  cbn [mbind result_bind app load_table] in Hload.
  rewrite Hentry in Hload. cbn in Hload.
  rewrite (load_table_other _ _ _ _ _ Hload Hafter).
  apply lookup_insert_eq.
Qed.

End Tables.

Section Loader.
Implicit Types (w : world) (t : gmap Z string) (file : string).
Implicit Types (postprocess : option (string → result string)).

(** The loop over the lines computes [load_table]; it only adds records
    to the log. *)
Lemma parse_lines_load postprocess (lines : list string) t w :
  ∃ errors,
    parse_lines postprocess lines t w =
      (load_table postprocess lines t,
       World (disk w) (cache w) (reads w) (log w ++ errors)).
Proof.
  revert t w. induction lines as [|line rest IH]; intros t w.
  - exists []. cbn. rewrite app_nil_r. by destruct w.
  - cbn [parse_lines load_table]. unfold_M.
    unfold parse_line, entry_of.
    destruct (re_match line_re line) as [m|]; cbn.
    + unfold_M. unfold lift.
      destruct (apply_postprocess postprocess (group m "description"))
        as [text|e]; cbn.
      * destruct (int_of_str (group m "code")) as [key|e]; cbn.
        -- apply IH.
        -- exists []. rewrite app_nil_r. by destruct w.
      * exists []. rewrite app_nil_r. by destruct w.
    + unfold_M. cbn.
      destruct (IH t (World (disk w) (cache w) (reads w)
                        (log w ++ [(ERROR, "Could not parse line: " +:+ line)])))
        as [errors ->].
      eexists. cbn. by rewrite <- app_assoc.
Qed.


(** A call for a file that is not cached, by what the path holds: nothing,
    something [open] refuses, a text, or bytes that stop being text. *)
Lemma parse_pums_code_uncached v file postprocess w :
  cache w !! file = None →
  match disk w !! file with
  | None =>
      parse_pums_code v file postprocess w = (Raise (FileNotFoundError file), w)
  | Some (Unopenable e) =>
      parse_pums_code v file postprocess w = (Raise e, w)
  | Some (TextFile content) =>
      ∃ records,
        parse_pums_code v file postprocess w =
          match load_table postprocess (lines_of content) ∅ with
          | Ok table =>
              (Ok (answer table v),
               World (disk w) (<[file := table]> (cache w))
                 (reads w ++ [file]) (log w ++ records))
          | Raise e =>
              (Raise e,
               World (disk w) (cache w) (reads w ++ [file]) (log w ++ records))
          end
  | Some (UndecodableFile decoded reason) =>
      ∃ records,
        parse_pums_code v file postprocess w =
          (Raise (match load_table postprocess (lines_of decoded) ∅ with
                  | Ok _ => UnicodeDecodeError reason
                  | Raise e => e
                  end),
           World (disk w) (cache w) (reads w ++ [file]) (log w ++ records))
  end.
Proof.
  intros Hc. unfold parse_pums_code, get_cache, open_lines. unfold_M.
  rewrite decide_True by done.
  destruct (disk w !! file) as [[content | decoded reason | e]|] eqn:Hd;
    [| | done..].
  - destruct (parse_lines_load postprocess (lines_of content) ∅
                (World (disk w) (cache w) (reads w ++ [file]) (log w)))
      as [errors ->].
    destruct (load_table postprocess (lines_of content) ∅) as [table|e];
      [|by exists errors].
    cbn. rewrite lookup_insert_eq. unfold answer.
    destruct (code_lookup table v) as [description|]; cbn.
    + by exists errors.
    + eexists. by rewrite <- app_assoc.
  - destruct (parse_lines_load postprocess (lines_of decoded) ∅
                (World (disk w) (cache w) (reads w ++ [file]) (log w)))
      as [errors ->].
    exists errors.
    by destruct (load_table postprocess (lines_of decoded) ∅).
Qed.

(** The first call for a text file whose lines all load opens it once and
    caches the table of its lines. *)
Lemma parse_pums_code_first v file postprocess w (content : string)
    (table : gmap Z string) :
  cache w !! file = None →
  disk w !! file = Some (TextFile content) →
  load_table postprocess (lines_of content) ∅ = Ok table →
  ∃ records,
    parse_pums_code v file postprocess w =
      (Ok (answer table v),
       World (disk w) (<[file := table]> (cache w))
         (reads w ++ [file]) (log w ++ records)).
Proof.
  intros Hc Hd Hload.
  pose proof (parse_pums_code_uncached v file postprocess w Hc) as Hcall.
  rewrite Hd, Hload in Hcall. exact Hcall.
Qed.









End Loader.





(** How a call fails otherwise: [open] refuses a directory, and nothing is
    read; a code of 4301 digits is more than [int] converts, and a
    transform may raise, both after the file has been opened and before
    anything is cached. *)
Lemma load_failures :
  let call := λ postprocess content,
    parse_pums_code (VInt 6) "codes.txt" postprocess
      (fresh_process {[ "codes.txt" := content ]}) in
  let long_code := string_of_list_ascii (replicate 4301 "1"%char) in
  let broken := λ _ : string, Raise (TypeError "unsupported operand") in
  (call None (Unopenable (IsADirectoryError "codes.txt"))).1
    = Raise (IsADirectoryError "codes.txt") ∧
  reads (call None (Unopenable (IsADirectoryError "codes.txt"))).2 = [] ∧
  (call None (TextFile (long_code +:+ " .Teacher"))).1
    = Raise (exceeds_int_max_str_digits 4301) ∧
  reads (call None (TextFile (long_code +:+ " .Teacher"))).2 = ["codes.txt"] ∧
  cache (call None (TextFile (long_code +:+ " .Teacher"))).2 = ∅ ∧
  (call (Some broken) (TextFile "6 .Teacher")).1
    = Raise (TypeError "unsupported operand") ∧
  reads (call (Some broken) (TextFile "6 .Teacher")).2 = ["codes.txt"] ∧
  cache (call (Some broken) (TextFile "6 .Teacher")).2 = ∅.
Proof. cbv zeta. split_and!; vm_compute; reflexivity. Qed.

(** ** The command line *)

Section Classify.
Variable parser : list Argument.
Implicit Types (argv : list string) (a : Argument).

Lemma option_string_actions_member (o : string) a :
  (o, Act a) ∈ option_string_actions parser → a ∈ parser.
Proof.
  unfold option_string_actions.
  intros [Hhelp | Hin]%elem_of_app.
  - repeat (apply elem_of_cons in Hhelp as [[=] | Hhelp]).
    by apply elem_of_nil in Hhelp.
  - apply list_elem_of_fmap in Hin as (a' & [= _ ->] & Ha'). done.
Qed.

Lemma lookup_option_member (o : string) a :
  lookup_option parser o = Some (Act a) → a ∈ parser.
Proof.
  unfold lookup_option.
  destruct (list_find _ (option_string_actions parser)) as [[i [o' act]]|]
    eqn:Hfind; [|done].
  cbn. intros [= ->]. apply list_find_Some in Hfind as (Hi & _ & _).
  apply (option_string_actions_member o'). by eapply list_elem_of_lookup_2.
Qed.

Lemma get_option_tuples_member (arg_string : string) a (e : option string) :
  (Act a, e) ∈ get_option_tuples parser arg_string → a ∈ parser.
Proof.
  unfold get_option_tuples.
  destruct (list_ascii_of_string arg_string) as [|c1 [|c2 rest]]; cbn zeta.
  - by intros ?%elem_of_nil.
  - destruct (decide (c1 = "-"%char)) as [->|];
      [| by destruct c1 as [[] [] [] [] [] [] [] []]; try done;
            intros ?%elem_of_nil ].
    by intros ?%elem_of_nil.
  - assert (∀ (f : string * parser_action → option (parser_action * option string)),
              (∀ entry r, f entry = Some r → r.1 = entry.2) →
              (Act a, e) ∈ omap f (option_string_actions parser) → a ∈ parser)
      as Homap.
    { intros f Hf Hin. apply list_elem_of_omap in Hin as ([o act] & Hentry & Hr).
      apply Hf in Hr. cbn in Hr. subst act.
      by apply (option_string_actions_member o). }
    destruct (decide (c1 = "-"%char)) as [->|Hc1];
      [| by destruct c1 as [[] [] [] [] [] [] [] []]; try done;
            intros ?%elem_of_nil ].
    destruct (decide (c2 = "-"%char)) as [->|Hc2].
    + destruct (split_at_equals _) as [[before after]|];
        (apply Homap; intros entry r; destruct (String.prefix _ _);
         [by intros [= <-] | done]).
    + assert (∀ (X Y : list (parser_action * option string)),
                (Act a, e) ∈ Y → a ∈ parser →
                True) as _ by done.
      destruct c2 as [[] [] [] [] [] [] [] []]; try done;
        (apply Homap; intros entry r; destruct (String.eqb _ _);
         [by intros [= <-] | destruct (String.prefix _ _); [by intros [= <-] | done]]).
Qed.

(** An option the first pass resolves a string to is an option of the
    parser. *)
Lemma parse_optional_member (arg_string : string) (cls : token_class) a :
  parse_optional parser arg_string = Ok cls →
  option_of cls = Some a → a ∈ parser.
Proof.
  unfold parse_optional.
  destruct (list_ascii_of_string arg_string) as [|c rest] eqn:Hchars;
    [by intros [= <-]|].
  assert (∀ X : result token_class,
            (X = Ok cls → option_of cls = Some a → a ∈ parser) →
            match c with
            | "-"%char => X
            | _ => Ok ClsArgument
            end = Ok cls → option_of cls = Some a → a ∈ parser) as Hdash.
  { intros X HX. destruct c as [[] [] [] [] [] [] [] []]; try exact HX;
      by intros [= <-]. }
  apply Hdash. clear Hdash.
  destruct (lookup_option parser arg_string) as [act|] eqn:Hexact.
  { intros [= <-]. destruct act as [|a']; [done|]. intros [= ->].
    by apply (lookup_option_member arg_string). }
  destruct rest as [|c' rest']; [by intros [= <-]|].
  destruct (split_at_equals (c :: c' :: rest')) as [[before after]|].
  - destruct (lookup_option parser (string_of_list_ascii before))
      as [act|] eqn:Hbefore; cbn.
    { intros [= <-]. destruct act as [|a']; [done|]. intros [= ->].
      by apply (lookup_option_member (string_of_list_ascii before)). }
    destruct (get_option_tuples parser arg_string) as [|[act e] [|]] eqn:Htuples.
    + destruct (is_negative_number _); [by intros [= <-]|].
      destruct (bool_decide _); by intros [= <-].
    + intros [= <-]. destruct act as [|a']; [done|]. intros [= ->].
      apply (get_option_tuples_member arg_string a e). rewrite Htuples.
      apply elem_of_cons. by left.
    + done.
  - destruct (get_option_tuples parser arg_string) as [|[act e] [|]] eqn:Htuples.
    + destruct (is_negative_number _); [by intros [= <-]|].
      destruct (bool_decide _); by intros [= <-].
    + intros [= <-]. destruct act as [|a']; [done|]. intros [= ->].
      apply (get_option_tuples_member arg_string a e). rewrite Htuples.
      apply elem_of_cons. by left.
    + done.
Qed.

(** The first pass on an accepted command line: the strings read as
    options are options of the parser, and an option is among them exactly
    when it is passed. *)
Lemma classify_options argv (classes : list (string * token_class)) :
  classify parser argv = Ok classes →
  Forall (λ c, ∀ a, option_of c.2 = Some a → a ∈ parser) classes ∧
  ∀ o, Exists (λ c, ∃ a, option_of c.2 = Some a ∧ option_string a = o) classes
       ↔ passed parser argv o = true.
Proof.
  revert classes. induction argv as [|arg_string rest IH]; intros classes.
  - intros [= <-]. split; [constructor|]. intros o.
    split; [by intros ?%Exists_nil | done].
  - cbn [classify passed]. destruct (String.eqb arg_string "--").
    + intros [= <-]. split.
      * constructor; [done|]. apply Forall_forall.
        intros c (s & -> & _)%list_elem_of_fmap. done.
      * intros o. split; [|done]. intros [Hhead | Htail]%Exists_cons.
        -- by destruct Hhead as (a & [=] & _).
        -- apply Exists_exists in Htail
             as (c & (s & -> & _)%list_elem_of_fmap & a & [=] & _).
    + destruct (parse_optional parser arg_string) as [cls|] eqn:Hcls; [|done].
      cbn. destruct (classify parser rest) as [classes'|]; [|done].
      cbn. intros [= <-]. destruct (IH classes' eq_refl) as [Hmem Hpassed].
      split.
      * constructor; [|done]. intros a Ha.
        by apply (parse_optional_member arg_string cls).
      * intros o. rewrite Exists_cons, Hpassed, orb_true_iff.
        unfold reads_as. rewrite Hcls. cbn [snd].
        destruct (option_of cls) as [a|].
        -- rewrite String.eqb_eq. split.
           ++ intros [(a' & [= <-] & Ho) | ?]; [by left | by right].
           ++ intros [Ho | ?]; [left; by exists a | by right].
        -- split.
           ++ intros [(a' & [=] & _) | ?]. by right.
           ++ intros [[=] | ?]. by right.
Qed.
End Classify.

Section Consume.
Implicit Types (classes : list (string * token_class)).
Implicit Types (st : pending) (ps : parse_state) (a : Argument).

Lemma close_pending_other st ps (d : string) :
  pending_dest st ≠ Some d → ns (close_pending st ps) !! d = ns ps !! d.
Proof.
  destruct st as [|a|a acc]; cbn; [done..|].
  intros Hd. apply lookup_insert_ne. congruence.
Qed.

Lemma seen_close_pending st ps : seen (close_pending st ps) = seen ps.
Proof. by destruct st. Qed.

Lemma start_option_other a ps (d : string) :
  dest a ≠ d →
  ns (start_option a ps).2 !! d = ns ps !! d ∧
  pending_dest (start_option a ps).1 ≠ Some d.
Proof.
  intros Hd. unfold start_option.
  destruct (action a); [destruct (nargs_star a)|..]; cbn;
    (split; [first [done | by apply lookup_insert_ne] | congruence]).
Qed.

Lemma start_option_seen a ps : seen (start_option a ps).2 = dest a :: seen ps.
Proof.
  unfold start_option. by destruct (action a); [destruct (nargs_star a)|..].
Qed.

Lemma attached_option_Ok a (e : string) ps ps' :
  attached_option a e ps = Ok ps' →
  action a = store ∧ seen ps' = dest a :: seen ps ∧
  ∀ d, dest a ≠ d → ns ps' !! d = ns ps !! d.
Proof.
  unfold attached_option. destruct (action a); [|done..].
  destruct (String.eqb e "--").
  - intros [= <-]. split_and!; [done..|]. intros d Hd. by apply lookup_insert_ne.
  - destruct (convert a e) as [v|]; [|done]. cbn. intros [= <-].
    split_and!; [done..|]. intros d Hd. by apply lookup_insert_ne.
Qed.

(** A string that is not read as an option stored under [d] leaves the
    attribute [d] alone. *)
Lemma consume_one_other (s : string) (cls : token_class) st ps
    (next : pending * parse_state) (d : string) :
  consume_one s cls st ps = Ok next →
  (∀ a, option_of cls = Some a → dest a ≠ d) →
  pending_dest st ≠ Some d →
  ns next.2 !! d = ns ps !! d ∧ pending_dest next.1 ≠ Some d.
Proof.
  intros Hone Hcls Hst.
  pose proof (close_pending_other st ps d Hst) as Hclose.
  destruct cls as [| |[[|a]|] [e|]]; cbn in Hcls.
  all: destruct st as [|a0|a0 acc]; cbn [consume_one] in Hone; try done.
  all: try (injection Hone as <-; cbn [fst snd ns pending_dest]; done).
  all: try (destruct (convert a0 s) as [v|]; [|done]; injection Hone as <-;
            cbn; split; [|done]; apply lookup_insert_ne; cbn in Hst; congruence).
  all: try (destruct (attached_option a e _) as [ps1|] eqn:Hattached; [|done];
            injection Hone as <-;
            apply attached_option_Ok in Hattached as (_ & _ & Hns);
            cbn [fst snd pending_dest]; split; [|done];
            rewrite Hns by (by apply Hcls); done).
  all: injection Hone as <-;
       match goal with
       | |- context [start_option ?a1 ?ps0] =>
           destruct (start_option_other a1 ps0 d (Hcls a1 eq_refl))
             as [Hns Hpending]
       end;
       split; [rewrite Hns; exact Hclose | done].
Qed.

(** An attribute is marked as seen only by a string read as an option
    stored under it. *)
Lemma consume_one_seen (s : string) (cls : token_class) st ps
    (next : pending * parse_state) (d : string) :
  consume_one s cls st ps = Ok next →
  d ∈ seen next.2 →
  d ∈ seen ps ∨ ∃ a, option_of cls = Some a ∧ dest a = d.
Proof.
  intros Hone Hseen.
  pose proof (seen_close_pending st ps) as Hclose.
  destruct cls as [| |[[|a]|] [e|]].
  all: destruct st as [|a0|a0 acc]; cbn [consume_one] in Hone; try done.
  all: try (injection Hone as <-; cbn in Hseen; by left).
  all: try (destruct (convert a0 s) as [v|]; [|done]; injection Hone as <-;
            by left).
  all: try (destruct (attached_option a e _) as [ps1|] eqn:Hattached; [|done];
            injection Hone as <-;
            apply attached_option_Ok in Hattached as (_ & Hseen1 & _);
            cbn [snd] in Hseen; rewrite Hseen1 in Hseen;
            apply elem_of_cons in Hseen as [-> | Hseen];
            [right; by exists a | by left]).
  all: injection Hone as <-; rewrite start_option_seen in Hseen;
       apply elem_of_cons in Hseen as [-> | Hseen];
       [right; by exists a | by left].
Qed.

(** A string read as a flag leaves the constant of the flag in its
    attribute. *)
Lemma consume_one_flag (s : string) (cls : token_class) st ps
    (next : pending * parse_state) a (b : bool) :
  consume_one s cls st ps = Ok next →
  option_of cls = Some a →
  action a = (if b then store_true else store_false) →
  next.1 = Idle ∧ ns next.2 !! dest a = Some (ABool b).
Proof.
  intros Hone Hcls Haction.
  destruct cls as [| |[[|a']|] [e|]]; try done. all: injection Hcls as ->.
  - assert (∀ ps0, attached_option a e ps0 = Raise (SystemExit 2)) as Hrefused.
    { intros ps0. unfold attached_option. rewrite Haction. by destruct b. }
    destruct st as [|a0|a0 acc]; cbn [consume_one] in Hone; [| done |];
      by rewrite Hrefused in Hone.
  - assert (∀ ps0, start_option a ps0 =
              (Idle, store_value a (ABool b) ps0)) as Hstart.
    { intros ps0. unfold start_option. rewrite Haction. by destruct b. }
    destruct st as [|a0|a0 acc]; cbn [consume_one] in Hone; [| done |];
      injection Hone as <-; rewrite Hstart; cbn;
      (split; [done | apply lookup_insert_eq]).
Qed.

Lemma convert_raises a (s : string) (e : exn) :
  convert a s = Raise e → e = SystemExit 2.
Proof.
  unfold convert.
  destruct (type_ a); [|destruct (int_of_str s)|destruct (is_float_literal s)];
    destruct (choices_ a) as [allowed|];
    try destruct (bool_decide (s ∈ allowed)); congruence.
Qed.

Lemma consume_one_raises (s : string) (cls : token_class) st ps (e : exn) :
  consume_one s cls st ps = Raise e → ∃ code, e = SystemExit code.
Proof.
  intros Hone.
  assert (∀ a0 ex ps0, attached_option a0 ex ps0 = Raise e →
                       ∃ code, e = SystemExit code) as Hattached.
  { intros a0 ex ps0. unfold attached_option.
    destruct (action a0); [|intros [= <-]; by eexists..].
    destruct (String.eqb ex "--"); [done|].
    destruct (convert a0 ex) as [v|e'] eqn:Hconvert; [done|].
    intros [= <-]. apply convert_raises in Hconvert as ->. by eexists. }
  destruct cls as [| |[[|a]|] [ex|]].
  all: destruct st as [|a0|a0 acc]; cbn [consume_one] in Hone; try done.
  all: try (injection Hone as <-;
            first [by eexists | destruct (_ && _); by eexists]).
  all: try (destruct (convert a0 s) as [v|e'] eqn:Hconvert; [done|];
            injection Hone as <-; apply convert_raises in Hconvert as ->;
            by eexists).
  all: destruct (attached_option a ex _) as [ps1|e'] eqn:Hattached'; [done|];
       injection Hone as <-; by eapply Hattached.
Qed.

(** An attribute keeps its value when no string of the command line is
    read as an option stored under it. *)
Lemma consume_untouched classes st ps ps' (d : string) :
  consume classes st ps = Ok ps' →
  Forall (λ c, ∀ a, option_of c.2 = Some a → dest a ≠ d) classes →
  pending_dest st ≠ Some d →
  ns ps' !! d = ns ps !! d.
Proof.
  revert st ps. induction classes as [|[s cls] rest IH]; intros st ps Hrun Hno Hst.
  - cbn [consume] in Hrun.
    destruct st as [|a|a acc]; [| done |]; injection Hrun as <-.
    + done.
    + exact (close_pending_other (Gathering a acc) ps d Hst).
  - apply Forall_cons in Hno as [Hcls Hrest]. cbn [consume] in Hrun.
    destruct (consume_one s cls st ps) as [next|] eqn:Hone; [|done].
    destruct (consume_one_other s cls st ps next d Hone Hcls Hst) as [Hns Hnext].
    cbn in Hrun. rewrite (IH _ _ Hrun Hrest Hnext). exact Hns.
Qed.

(** An attribute is marked as seen only when a string of the command line
    is read as an option stored under it. *)
Lemma consume_seen classes st ps ps' (d : string) :
  consume classes st ps = Ok ps' →
  d ∈ seen ps' →
  d ∈ seen ps ∨
  Exists (λ c, ∃ a, option_of c.2 = Some a ∧ dest a = d) classes.
Proof.
  revert st ps. induction classes as [|[s cls] rest IH]; intros st ps Hrun Hseen.
  - cbn [consume] in Hrun. left.
    destruct st as [|a|a acc]; [| done |]; by injection Hrun as <-.
  - cbn [consume] in Hrun.
    destruct (consume_one s cls st ps) as [next|] eqn:Hone; [|done].
    cbn in Hrun. destruct (IH _ _ Hrun Hseen) as [Hnext | Hlater].
    + destruct (consume_one_seen s cls st ps next d Hone Hnext) as [? | Hhere];
        [by left | right]. by apply Exists_cons_hd.
    + right. by apply Exists_cons_tl.
Qed.

(** When the options stored under an attribute are flags with one
    constant, the attribute holds that constant once one of them has been
    read. *)
Lemma consume_flag classes st ps ps' (d : string) (b : bool) :
  consume classes st ps = Ok ps' →
  Forall (λ c, ∀ a, option_of c.2 = Some a → dest a = d →
               action a = (if b then store_true else store_false)) classes →
  pending_dest st ≠ Some d →
  ns ps !! d = Some (ABool b) ∨
  Exists (λ c, ∃ a, option_of c.2 = Some a ∧ dest a = d) classes →
  ns ps' !! d = Some (ABool b).
Proof.
  revert st ps. induction classes as [|[s cls] rest IH];
    intros st ps Hrun Hflags Hst Hset.
  - destruct Hset as [Hset | Hex]; [|by apply Exists_nil in Hex].
    rewrite (consume_untouched [] st ps ps' d Hrun); done.
  - apply Forall_cons in Hflags as [Hflag Hrest]. cbn [consume] in Hrun.
    destruct (consume_one s cls st ps) as [next|] eqn:Hone; [|done].
    cbn in Hrun. cbn [snd] in Hflag.
    destruct (option_of cls) as [a|] eqn:Hcls;
      [destruct (decide (dest a = d)) as [Hd|Hd]|].
    + destruct (consume_one_flag s cls st ps next a b Hone Hcls (Hflag a eq_refl Hd))
        as [Hidle Hns].
      apply (IH _ _ Hrun Hrest); [by rewrite Hidle | left; by rewrite <- Hd].
    + destruct (consume_one_other s cls st ps next d Hone) as [Hns Hnext];
        [intros a' Ha'; rewrite Hcls in Ha'; by injection Ha' as <- | done |].
      apply (IH _ _ Hrun Hrest Hnext). rewrite Hns.
      destruct Hset as [? | [(a' & Ha' & ?) | ?]%Exists_cons];
        [by left | | by right].
      cbn [snd] in Ha'. rewrite Hcls in Ha'. by injection Ha' as <-.
    + destruct (consume_one_other s cls st ps next d Hone) as [Hns Hnext];
        [intros a' Ha'; by rewrite Hcls in Ha' | done |].
      apply (IH _ _ Hrun Hrest Hnext). rewrite Hns.
      destruct Hset as [? | [(a' & Ha' & ?) | ?]%Exists_cons];
        [by left | | by right].
      cbn [snd] in Ha'. by rewrite Hcls in Ha'.
Qed.

(** Whatever the second pass rejects, it rejects by leaving the process. *)
Lemma consume_raises classes st ps (e : exn) :
  consume classes st ps = Raise e → ∃ code, e = SystemExit code.
Proof.
  revert st ps. induction classes as [|[s cls] rest IH]; intros st ps Hrun.
  - cbn [consume] in Hrun.
    destruct st; [done | injection Hrun as <-; by eexists | done].
  - cbn [consume] in Hrun.
    destruct (consume_one s cls st ps) as [next|e'] eqn:Hone.
    + by eapply IH.
    + injection Hrun as <-. by eapply consume_one_raises.
Qed.
End Consume.

Lemma bind_result_Ok {A B : Type} (r : result A) (k : A → result B) (b : B) :
  r ≫= k = Ok b → ∃ a, r = Ok a ∧ k a = Ok b.
Proof. destruct r as [a|e]; [by exists a | done]. Qed.

Lemma getattr_Ok (args : namespace) (x : string) (v : argval) :
  getattr args x = Ok v → args !! x = Some v.
Proof. unfold getattr. destruct (args !! x); congruence. Qed.

Lemma parse_optional_raises (parser : list Argument) (s : string) (e : exn) :
  parse_optional parser s = Raise e → e = SystemExit 2.
Proof.
  unfold parse_optional.
  destruct (list_ascii_of_string s) as [|c rest]; [done|].
  assert (∀ X : result token_class,
            (X = Raise e → e = SystemExit 2) →
            match c with
            | "-"%char => X
            | _ => Ok ClsArgument
            end = Raise e → e = SystemExit 2) as Hdash.
  { intros X HX. destruct c as [[] [] [] [] [] [] [] []]; try exact HX; done. }
  apply Hdash. clear Hdash.
  destruct (lookup_option parser s); [done|].
  destruct rest; [done|].
  destruct (match split_at_equals _ with Some _ => _ | None => _ end)
    as [[act ex]|]; [done|].
  destruct (get_option_tuples parser s) as [|[act ex] [|]].
  - destruct (is_negative_number s); [done|]. by destruct (bool_decide _).
  - done.
  - by intros [= <-].
Qed.

Lemma classify_raises (parser : list Argument) (argv : list string) (e : exn) :
  classify parser argv = Raise e → e = SystemExit 2.
Proof.
  induction argv as [|s rest IH]; [done|]. cbn [classify].
  destruct (String.eqb s "--"); [done|].
  destruct (parse_optional parser s) as [cls|e'] eqn:Hcls.
  - cbn. destruct (classify parser rest); [done|]. cbn. intros [= <-]. by apply IH.
  - cbn. intros [= <-]. by eapply parse_optional_raises.
Qed.

(** An accepted command line went through both passes. *)
Lemma parse_args_Ok (parser : list Argument) (argv : list string) (args : namespace) :
  parse_args parser argv = Ok args →
  ∃ classes ps,
    classify parser argv = Ok classes ∧
    consume classes Idle (ParseState (initial_namespace parser) [] []) = Ok ps ∧
    (∀ a, a ∈ parser → required a = true → dest a ∈ seen ps) ∧
    args = ns ps.
Proof.
  unfold parse_args. intros Hparse.
  apply bind_result_Ok in Hparse as (classes & Hcls & Hparse).
  apply bind_result_Ok in Hparse as (ps & Hrun & Hparse).
  destruct (forallb _ parser) eqn:Hall; [|done].
  destruct (negb _); [|done]. injection Hparse as <-. exists classes, ps.
  split_and!; [done | done | | done].
  intros a Ha Hrequired. rewrite forallb_forall in Hall.
  specialize (Hall a (proj1 (list_elem_of_In _ _) Ha)).
  rewrite Hrequired in Hall. by apply bool_decide_eq_true in Hall.
Qed.

(** A rejected command line ends the process. *)
Lemma parse_args_raises (parser : list Argument) (argv : list string) (e : exn) :
  parse_args parser argv = Raise e → ∃ code, e = SystemExit code.
Proof.
  unfold parse_args. destruct (classify parser argv) as [classes|e'] eqn:Hcls.
  - cbn. destruct (consume classes Idle _) as [ps|e'] eqn:Hrun; cbn.
    + destruct (_ && _); [done|]. intros [= <-]. by eexists.
    + intros [= <-]. by eapply consume_raises.
  - cbn. intros [= <-]. apply classify_raises in Hcls as ->. by eexists.
Qed.

Section ParseArgs.
Variable parser : list Argument.
Implicit Types (argv : list string) (args : namespace) (a : Argument).

(** An option that is not passed leaves the default in its attribute. *)
Lemma parse_args_absent argv args (o d : string) :
  parse_args parser argv = Ok args →
  Forall (λ a, dest a = d → option_string a = o) parser →
  passed parser argv o = false →
  args !! d = initial_namespace parser !! d.
Proof.
  intros (classes & ps & Hcls & Hrun & _ & ->)%parse_args_Ok Hunique Habsent.
  apply classify_options in Hcls as [Hmember Hpassed].
  rewrite (consume_untouched classes Idle _ ps d Hrun); [done | | done].
  apply Forall_forall. intros c Hc a Ha Hd.
  assert (passed parser argv o = true) as Hyes; [|congruence].
  apply Hpassed, Exists_exists. exists c. split; [done|]. exists a.
  split; [done|].
  rewrite Forall_forall in Hmember. rewrite Forall_forall in Hunique.
  apply Hunique; [|done]. by apply (Hmember c).
Qed.

(** A flag that is passed leaves its constant in its attribute. *)
Lemma parse_args_flag argv args (o d : string) (b : bool) :
  parse_args parser argv = Ok args →
  Forall (λ a, dest a = d ↔ option_string a = o) parser →
  Forall (λ a, dest a = d →
               action a = (if b then store_true else store_false)) parser →
  passed parser argv o = true →
  args !! d = Some (ABool b).
Proof.
  intros (classes & ps & Hcls & Hrun & _ & ->)%parse_args_Ok Hunique Hflag Hyes.
  apply classify_options in Hcls as [Hmember Hpassed].
  rewrite Forall_forall in Hmember. rewrite Forall_forall in Hunique.
  rewrite Forall_forall in Hflag.
  apply (consume_flag classes Idle _ ps d b Hrun); [| done |].
  - apply Forall_forall. intros c Hc a Ha Hd. apply Hflag; [|done].
    by apply (Hmember c).
  - right. apply Hpassed in Hyes. apply Exists_exists in Hyes
      as (c & Hc & a & Ha & Ho).
    apply Exists_exists. exists c. split; [done|]. exists a. split; [done|].
    apply Hunique; [|done]. by apply (Hmember c).
Qed.

(** On an accepted command line every required option is passed. *)
Lemma parse_args_required argv args a :
  parse_args parser argv = Ok args →
  a ∈ parser → required a = true →
  Forall (λ a', dest a' = dest a → option_string a' = option_string a) parser →
  passed parser argv (option_string a) = true.
Proof.
  intros (classes & ps & Hcls & Hrun & Hrequired & ->)%parse_args_Ok
    Ha Hreq Hunique.
  apply classify_options in Hcls as [Hmember Hpassed].
  rewrite Forall_forall in Hmember. rewrite Forall_forall in Hunique.
  apply Hpassed.
  destruct (consume_seen classes Idle _ ps (dest a) Hrun (Hrequired a Ha Hreq))
    as [Hin | Hex]; [by apply elem_of_nil in Hin|].
  apply Exists_exists in Hex as (c & Hc & a' & Ha' & Hd).
  apply Exists_exists. exists c. split; [done|]. exists a'. split; [done|].
  apply Hunique; [|done]. by apply (Hmember c).
Qed.
End ParseArgs.

(** Steps through the script of [main] when it has returned a
    configuration. *)
Ltac main_steps H :=
  repeat match type of H with
  | _ ≫= _ = Ok _ =>
      let a := fresh "a" in
      let Hstep := fresh "Hstep" in
      apply bind_result_Ok in H as (a & Hstep & H)
  end.

(** Checks a property of every argument of [setup_arg_parser]. *)
Ltac each_argument :=
  unfold setup_arg_parser; cbn [map cli_args app];
  repeat (apply Forall_cons; split;
          [vm_compute; first [ done | split; congruence ]|]);
  apply Forall_nil_2.

(** The attribute [d] of an accepted command line on which [o], the only
    option stored under [d], is not passed: it holds its default. *)
Ltac absent_option Hparse Habsent o d :=
  let Hattr := fresh "Hdefault" in
  pose proof (parse_args_absent setup_arg_parser _ _ o d Hparse
                ltac:(each_argument) Habsent) as Hattr;
  let v := eval vm_compute in (initial_namespace setup_arg_parser !! d) in
  replace (initial_namespace setup_arg_parser !! d) with v in Hattr
    by (vm_compute; reflexivity).

(** The attribute [d] of an accepted command line on which the flag [o],
    the only option stored under [d], is passed: it holds [b]. *)
Ltac present_flag Hparse Hpresent o d b :=
  let Hattr := fresh "Hflag" in
  pose proof (parse_args_flag setup_arg_parser _ _ o d b Hparse
                ltac:(each_argument) ltac:(each_argument) Hpresent) as Hattr.

(** For every command line the script accepts, the configuration corrects
    the order bias exactly when [--dont-correct-order-bias] is passed. *)
Lemma correct_order_bias_iff_flag (env : externals) (argv : list string)
    (config : BenchmarkConfig) :
  main env argv = Ok config →
  correct_order_bias config
    = passed setup_arg_parser argv "--dont-correct-order-bias".
Proof.
  unfold main. intros Hmain. cbv zeta in Hmain.
  apply bind_result_Ok in Hmain as (args & Hparse & Hmain).
  main_steps Hmain. injection Hmain as <-. cbn [correct_order_bias].
  match goal with
  | H : getattr _ "dont_correct_order_bias" = Ok ?v |- _ =>
      apply getattr_Ok in H; rename H into Hattr
  end.
  destruct (passed setup_arg_parser argv "--dont-correct-order-bias") eqn:Hflag.
  - present_flag Hparse Hflag "--dont-correct-order-bias"
      "dont_correct_order_bias" false.
    rewrite Hattr in Hflag0. by injection Hflag0 as ->.
  - absent_option Hparse Hflag "--dont-correct-order-bias"
      "dont_correct_order_bias".
    rewrite Hattr in Hdefault. by injection Hdefault as ->.
Qed.

(** C5.  On a command line without [--dont-correct-order-bias] the
    configuration built by the script has [correct_order_bias] false, and
    with the flag it has [correct_order_bias] true: the default leaves the
    order bias uncorrected. *)
Theorem order_bias_default_off :
  correct_order_bias <$>
    main all_succeed (required_argv ++ ["--use-feature-subset"])
  = Ok false ∧
  correct_order_bias <$>
    main all_succeed
      (required_argv ++ ["--use-feature-subset"; "--dont-correct-order-bias"])
  = Ok true.
Proof. split; vm_compute; reflexivity. Qed.

(** For every command line on which [--use-feature-subset] is not passed
    the script builds no configuration, whatever its collaborators do:
    when it gets as far as the configuration, [tuple(None)] raises. *)
Lemma no_config_without_feature_subset (env : externals) (argv : list string) :
  passed setup_arg_parser argv "--use-feature-subset" = false →
  ∀ config, main env argv ≠ Ok config.
Proof.
  intros Habsent config Hmain. unfold main in Hmain. cbv zeta in Hmain.
  apply bind_result_Ok in Hmain as (args & Hparse & Hmain).
  main_steps Hmain.
  match goal with
  | H : getattr _ "use_feature_subset" = Ok ?v, Ht : tuple ?v = Ok _ |- _ =>
      apply getattr_Ok in H; rename H into Hattr; rename Ht into Htuple
  end.
  absent_option Hparse Habsent "--use-feature-subset" "use_feature_subset".
  rewrite Hattr in Hdefault. injection Hdefault as ->. discriminate Htuple.
Qed.

(** C7.  With the four required options and no [--use-feature-subset], the
    script raises [TypeError] where it builds the configuration, although
    its collaborators succeed; with the option and no feature after it, the
    configuration is built with no feature subset. *)
Theorem feature_subset_omitted_raises :
  main all_succeed required_argv
  = Raise (TypeError "'NoneType' object is not iterable") ∧
  feature_subset <$>
    main all_succeed (required_argv ++ ["--use-feature-subset"])
  = Ok None.
Proof. split; vm_compute; reflexivity. Qed.

(** ** Instances *)


Lemma init_raises_exactly_witness :
  ¬ (Some (VMCallable (int_with_unit "hours")) = None ∧
     (@None QAInterface = None ∨
      ∃ q, None = Some q ∧ is_MultipleChoiceQA q = false)) ∧
  ∃ self,
    (__init__ "WKHP" "usual number of hours worked per week"
       (Some (VMCallable (int_with_unit "hours"))) None "is" "N/A"
       (fresh_process ∅)).1 = Ok self ∧
    _name self = "WKHP" ∧
    _short_description self = "usual number of hours worked per week" ∧
    _connector_verb self = "is" ∧ _missing_value_fill self = "N/A" ∧
    is_Some (_value_map self).
Proof.
  assert (¬ (Some (VMCallable (int_with_unit "hours")) = None ∧
             (@None QAInterface = None ∨
              ∃ q, None = Some q ∧ is_MultipleChoiceQA q = false))) as Hok
    by (intros [Hnone _]; discriminate Hnone).
  split; [exact Hok|].
  exact (proj2 (init_raises_exactly "WKHP" "usual number of hours worked per week"
                  (Some (VMCallable (int_with_unit "hours"))) None "is" "N/A"
                  (fresh_process ∅)) Hok).
Defined.




(** * Further properties *)

(** ** [ColumnToText] after construction *)



(** X2. Construction opens no file and leaves the disk and the code-table
    cache alone, also for the columns backed by a code table; it logs one
    warning when both a value map and a question are passed and nothing
    otherwise, whether it returns or raises. *)
Theorem init_touches_only_the_log (name_ short_description_ : string)
    (value_map_ : option value_map_t) (question_ : option QAInterface)
    (connector_verb missing_value_fill : string) (w : world) :
  let w' := (__init__ name_ short_description_ value_map_ question_
               connector_verb missing_value_fill w).2 in
  disk w' = disk w ∧ cache w' = cache w ∧ reads w' = reads w ∧
  ((is_Some value_map_ ∧ is_Some question_) ∧
     (∃ msg, log w' = log w ++ [(WARNING, msg)])
   ∨ ¬ (is_Some value_map_ ∧ is_Some question_) ∧ log w' = log w).
Proof.
  cbv zeta. unfold __init__.
  destruct question_ as [q|]; [destruct (is_MultipleChoiceQA q)|];
    (destruct value_map_ as [[d|f|d f|type_name]|]); unfold_M; cbn;
    (split_and!; [done..|]).
  all: first [ left; split; [split; by eexists | by eexists]
             | right; split; [|done];
               intros [[? Hvm] [? Hq]]; first [discriminate Hvm | discriminate Hq] ].
Qed.

(** X3. After construction the property [question] returns [None], and
    logs one error, exactly for a mapper built without a question from a
    value map that is not a dictionary, be it callable or not; a mapper
    built from a dictionary or given a question returns a question and
    logs nothing. *)
Theorem question_after_init (name_ short_description_ : string)
    (value_map_ : option value_map_t) (question_ : option QAInterface)
    (connector_verb missing_value_fill : string) (w w' : world)
    (self : ColumnToText) :
  __init__ name_ short_description_ value_map_ question_
    connector_verb missing_value_fill w = (Ok self, w') →
  ∀ w2,
    (question_ = None ∧ value_map_ ≫= as_dict = None →
       ∃ msg, question self w2 =
         (Ok None, World (disk w2) (cache w2) (reads w2) (log w2 ++ [(ERROR, msg)]))) ∧
    (¬ (question_ = None ∧ value_map_ ≫= as_dict = None) →
       ∃ q, question self w2 = (Ok (Some q), w2)).
Proof.
  intros Hinit w2. revert Hinit. unfold __init__.
  destruct question_ as [q|]; [destruct (is_MultipleChoiceQA q)|];
    (destruct value_map_ as [[d|f|d f|type_name]|]); unfold_M; cbn;
    intros [= <- <-].
  all: split;
    [ first [ by intros [[=] _] | by intros [_ [=]] | intros _; by eexists ]
    | first [ solve [intros _; by eexists]
            | intros Hno; by destruct Hno ] ].
Qed.

Lemma question_after_init_witness :
  ∃ self w',
    __init__ "AGEP" "age" (Some (VMCallable (int_with_unit "years old"))) None
      "is" "N/A" (fresh_process ∅) = (Ok self, w') ∧
    ∃ msg, question self (fresh_process ∅) =
      (Ok None, World ∅ ∅ [] [(ERROR, msg)]).
Proof.
  do 2 eexists. split; [reflexivity|].
  exact (proj1 (question_after_init "AGEP" "age"
                  (Some (VMCallable (int_with_unit "years old"))) None
                  "is" "N/A" (fresh_process ∅) _ _ eq_refl (fresh_process ∅))
           (conj eq_refl eq_refl)).
Defined.

(** ** Lines the pattern accepts *)

(** X4. The line pattern accepts every line made of one or more digits,
    one or more whitespace characters, a dot and a non-empty description
    without newline, with or without a final newline; the code group is the
    digits and the description group everything between the dot and the
    end of the line, unchanged. *)
Theorem line_re_accepts (ds ws desc tail : list ascii) :
  ds ≠ [] → forallb is_digit ds = true →
  ws ≠ [] → forallb is_space ws = true →
  desc ≠ [] → forallb any_but_newline desc = true →
  tail = [] ∨ tail = [newline] →
  ∃ m,
    re_match line_re
      (string_of_list_ascii (ds ++ ws ++ "."%char :: desc ++ tail)) = Some m ∧
    group m "code" = string_of_list_ascii ds ∧
    group m "description" = string_of_list_ascii desc.
Proof. apply line_re_match. Qed.

Lemma line_re_accepts_witness :
  ∃ m,
    re_match line_re ("0010 .MGR-Chief Executives" +:+ end_of_line) = Some m ∧
    group m "code" = "0010" ∧
    group m "description" = "MGR-Chief Executives".
Proof.
  exact (line_re_accepts
           (list_ascii_of_string "0010") (list_ascii_of_string " ")
           (list_ascii_of_string "MGR-Chief Executives") [newline]
           ltac:(discriminate) eq_refl ltac:(discriminate) eq_refl
           ltac:(discriminate) eq_refl (or_intror eq_refl)).
Defined.

(** X5. Conversely, a line the pattern accepts has exactly that shape, and
    the two groups are its digits and its description: every other line
    is skipped by the loader. *)
Theorem line_re_accepted_shape (line : string) (m : captures) :
  re_match line_re line = Some m →
  ∃ ds ws desc tail,
    list_ascii_of_string line = ds ++ ws ++ "."%char :: desc ++ tail ∧
    ds ≠ [] ∧ forallb is_digit ds = true ∧
    ws ≠ [] ∧ forallb is_space ws = true ∧
    desc ≠ [] ∧ forallb any_but_newline desc = true ∧
    (tail = [] ∨ tail = [newline]) ∧
    group m "code" = string_of_list_ascii ds ∧
    group m "description" = string_of_list_ascii desc.
Proof. exact (line_re_shape line m). Qed.

Lemma line_re_accepted_shape_witness :
  ∃ ds ws desc tail,
    list_ascii_of_string ("6 . Teacher" +:+ end_of_line)
      = ds ++ ws ++ "."%char :: desc ++ tail ∧
    ds ≠ [] ∧ forallb is_digit ds = true ∧
    ws ≠ [] ∧ forallb is_space ws = true ∧
    desc ≠ [] ∧ forallb any_but_newline desc = true ∧
    (tail = [] ∨ tail = [newline]) ∧
    "6" = string_of_list_ascii ds ∧
    " Teacher" = string_of_list_ascii desc.
Proof.
  exact (line_re_accepted_shape ("6 . Teacher" +:+ end_of_line)
           [("description"%string, list_ascii_of_string " Teacher");
            ("code"%string, list_ascii_of_string "6")] eq_refl).
Defined.

(** ** Malformed, repeated and zero-padded lines *)

(** X6. Lines that do not match the pattern contribute nothing to the
    table: the loop has the outcome it has on the matching lines alone,
    on which it logs nothing, and up to the line at which it stops, if
    it raises, it logs one error record per skipped line, in file order,
    naming the line; when it returns, these are all the skipped lines. *)
Theorem parse_lines_skips_malformed
    (postprocess : option (string → result string))
    (lines : list string) (t : gmap Z string) (w : world) :
  let good := filter (λ line, is_Some (re_match line_re line)) lines in
  let bad := filter (λ line, re_match line_re line = None) lines in
  let error_of := λ line, (ERROR, "Could not parse line: " +:+ line) in
  ∃ outcome skipped,
    parse_lines postprocess good t w = (outcome, w) ∧
    parse_lines postprocess lines t w =
      (outcome,
       World (disk w) (cache w) (reads w) (log w ++ (error_of <$> skipped))) ∧
    skipped `prefix_of` bad ∧
    ((∃ table, outcome = Ok table) → skipped = bad).
Proof.
  cbv zeta. revert t w. induction lines as [|line rest IH]; intros t w.
  - exists (Ok t), []. split_and!; [done | | done | done].
    cbn. rewrite app_nil_r. by destruct w.
  - destruct (re_match line_re line) as [m|] eqn:Hm.
    + rewrite (filter_cons_True (λ l, is_Some (re_match line_re l)))
        by (rewrite Hm; by eexists).
      rewrite (filter_cons_False (λ l, re_match line_re l = None))
        by (rewrite Hm; done).
      cbn [parse_lines]. unfold_M. unfold parse_line. rewrite Hm. unfold_M.
      unfold lift.
      destruct (apply_postprocess postprocess (group m "description"))
        as [text|e]; cbv beta iota.
      * destruct (int_of_str (group m "code")) as [key|e]; cbv beta iota.
        -- apply IH.
        -- exists (Raise e), []. split_and!; [done | | apply prefix_nil | by intros [? [=]]].
           cbn. rewrite app_nil_r. by destruct w.
      * exists (Raise e), []. split_and!; [done | | apply prefix_nil | by intros [? [=]]].
        cbn. rewrite app_nil_r. by destruct w.
    + rewrite (filter_cons_False (λ l, is_Some (re_match line_re l)))
        by (rewrite Hm; by intros [? [=]]).
      rewrite (filter_cons_True (λ l, re_match line_re l = None)) by done.
      cbn [parse_lines]. unfold_M. unfold parse_line. rewrite Hm.
      unfold_M. unfold logging. cbv beta iota.
      destruct (IH t w) as (outcome & skipped0 & Hgood & _).
      destruct (IH t (World (disk w) (cache w) (reads w)
                        (log w ++ [(ERROR, "Could not parse line: " +:+ line)])))
        as (outcome' & skipped & Hgood' & Hall & Hprefix & Hdone).
      assert (outcome' = outcome) as ->.
      { destruct (parse_lines_load postprocess
                    (filter (λ l, is_Some (re_match line_re l)) rest) t w)
          as [e1 H1].
        destruct (parse_lines_load postprocess
                    (filter (λ l, is_Some (re_match line_re l)) rest) t
                    (World (disk w) (cache w) (reads w)
                       (log w ++ [(ERROR, "Could not parse line: " +:+ line)])))
          as [e2 H2].
        rewrite H1 in Hgood. rewrite H2 in Hgood'. congruence. }
      exists outcome, (line :: skipped). split_and!.
      * done.
      * rewrite Hall. cbn. by rewrite <- app_assoc.
      * by apply prefix_cons.
      * intros Hok. by rewrite Hdone.
Qed.



(** X8. When several lines of a file carry the same code, the last of them
    decides: the first call for a text file whose lines all load answers a
    code with the description of the last matching line filed under it,
    passed through [postprocess] when one is given. *)
Theorem last_line_for_a_code_wins (file content : string)
    (postprocess : option (string → result string)) (w : world)
    (before after : list string) (line : string) (m : captures) (code : Z) :
  cache w !! file = None →
  disk w !! file = Some (TextFile content) →
  Forall (line_loads postprocess) (lines_of content) →
  lines_of content = before ++ [line] ++ after →
  re_match line_re line = Some m →
  int_of_digits (list_ascii_of_string (group m "code")) = code →
  Forall (λ line', line_code line' ≠ Some code) after →
  ∃ text,
    (parse_pums_code (VInt code) file postprocess w).1 = Ok text ∧
    match postprocess with
    | Some f => f (group m "description") = Ok text
    | None => group m "description" = text
    end.
Proof.
  intros Hc Hd Hloads Hlines Hm Hcode Hafter.
  pose proof Hloads as Hline. rewrite Hlines in Hline.
  apply Forall_app in Hline as [_ [Hline _]%Forall_cons].
  destruct (Hline m Hm) as [Hlen [text Htext]].
  apply (load_table_loads postprocess (lines_of content) ∅) in Hloads
    as [table Hload].
  destruct (parse_pums_code_first (VInt code) file postprocess w content table
              Hc Hd Hload) as [records ->].
  exists text. split.
  - cbn [fst]. unfold answer. cbn [code_lookup]. rewrite Hlines in Hload.
    erewrite load_table_last; [done | exact Hload | | done].
    rewrite (entry_of_match postprocess line m Hm), Htext.
    rewrite (proj2 (Nat.ltb_ge _ _) Hlen). by rewrite Hcode.
  - destruct postprocess as [f|]; [done|]. by injection Htext.
Qed.

Lemma last_line_for_a_code_wins_witness :
  let content := "6 .Teacher" +:+ end_of_line +:+ "7 .Nurse" +:+ end_of_line
                 +:+ "6 .Professor" +:+ end_of_line +:+ "8 .Clerk" in
  ∃ text,
    (parse_pums_code (VInt 6) "codes.txt" (Some (λ x, Ok (lower x)))
       (fresh_process {[ "codes.txt" := TextFile content ]})).1 = Ok text ∧
    Ok (lower "Professor") = Ok text.
Proof.
  cbv zeta.
  refine (last_line_for_a_code_wins "codes.txt" _ (Some (λ x, Ok (lower x)))
            (fresh_process {[ "codes.txt" := TextFile _ ]})
            ["6 .Teacher" +:+ end_of_line; "7 .Nurse" +:+ end_of_line]
            ["8 .Clerk"] ("6 .Professor" +:+ end_of_line)
            [("description"%string, list_ascii_of_string "Professor");
             ("code"%string, list_ascii_of_string "6")] 6
            ltac:(reflexivity) ltac:(reflexivity) _ _
            ltac:(reflexivity) ltac:(reflexivity) _).
  - apply (load_table_loads _ _ ∅). eexists. vm_compute. reflexivity.
  - vm_compute; reflexivity.
  - repeat (apply Forall_cons; split; [by vm_compute|]). apply Forall_nil_2.
Defined.

(** X9. Codes are compared as integers: a line whose code is padded with
    zeros is filed under the same key as the line without the padding, the
    value of its digits, which is what [int] makes of the padded code as
    long as it has no more digits than [int] accepts. *)
Theorem zero_padded_code (zeros : nat) (ds ws desc tail : list ascii) :
  ds ≠ [] → forallb is_digit ds = true →
  ws ≠ [] → forallb is_space ws = true →
  desc ≠ [] → forallb any_but_newline desc = true →
  tail = [] ∨ tail = [newline] →
  line_code (string_of_list_ascii
               (replicate zeros "0"%char ++ ds ++ ws ++ "."%char :: desc ++ tail))
  = Some (int_of_digits ds) ∧
  line_code (string_of_list_ascii (ds ++ ws ++ "."%char :: desc ++ tail))
  = Some (int_of_digits ds) ∧
  ((zeros + length ds ≤ int_max_str_digits)%nat →
   int_of_str (string_of_list_ascii (replicate zeros "0"%char ++ ds))
   = Ok (int_of_digits ds)).
Proof.
  intros Hds Hdigits Hws Hspaces Hdesc Hchars Htail.
  assert (∀ ds', ds' ≠ [] → forallb is_digit ds' = true →
            line_code (string_of_list_ascii (ds' ++ ws ++ "."%char :: desc ++ tail))
            = Some (int_of_digits ds')) as Hcode.
  { intros ds' Hds' Hdigits'.
    destruct (line_re_match ds' ws desc tail) as (m & Hm & Hcode & _); try done.
    unfold line_code. rewrite Hm. cbn. rewrite Hcode.
    by rewrite list_ascii_of_string_of_list_ascii. }
  assert (int_of_digits (replicate zeros "0"%char ++ ds) = int_of_digits ds)
    as Hvalue.
  { unfold int_of_digits at 1. rewrite fold_left_app.
    assert (fold_left (λ acc c, 10 * acc + digit_value c)%Z
              (replicate zeros "0"%char) 0%Z = 0%Z) as ->; [|done].
    induction zeros as [|n IH]; [done|]. cbn. exact IH. }
  assert (replicate zeros "0"%char ++ ds ≠ []) as Hpadded
    by (by intros [_ Hz]%app_eq_nil).
  assert (forallb is_digit (replicate zeros "0"%char ++ ds) = true) as Hpadded_digits.
  { rewrite forallb_app, Hdigits, andb_true_r.
    clear. induction zeros as [|n IH]; [done|]. cbn. exact IH. }
  split_and!.
  - by rewrite app_assoc, Hcode, Hvalue.
  - by apply Hcode.
  - intros Hlen. rewrite int_of_str_digits by done.
    rewrite (proj2 (Nat.ltb_ge _ _)); [by rewrite Hvalue|].
    by rewrite length_app, length_replicate.
Qed.

Lemma zero_padded_code_witness :
  line_code ("0010 .MGR-Chief Executives" +:+ end_of_line) = Some 10%Z ∧
  line_code ("10 .MGR-Chief Executives" +:+ end_of_line) = Some 10%Z.
Proof.
  exact (let H := zero_padded_code 2
           (list_ascii_of_string "10") (list_ascii_of_string " ")
           (list_ascii_of_string "MGR-Chief Executives") [newline]
           ltac:(discriminate) eq_refl ltac:(discriminate) eq_refl
           ltac:(discriminate) eq_refl (or_intror eq_refl) in
         conj (proj1 H) (proj1 (proj2 H))).
Defined.


(** ** The callables of the ACS columns *)

Lemma last_rev {A : Type} (l : list A) : last (rev l) = head l.
Proof. destruct l as [|a l]; [done|]. cbn [rev]. by rewrite last_snoc. Qed.

Lemma head_rev {A : Type} (l : list A) : head (rev l) = last l.
Proof. by rewrite <- (rev_involutive l) at 2; rewrite last_rev. Qed.

(** [lstrip] removes a whitespace prefix and stops at the first other
    character. *)
Lemma lstrip_spec (l : list ascii) :
  ∃ pre, l = pre ++ lstrip l ∧ Forall (λ c, is_space c = true) pre ∧
         ∀ c, head (lstrip l) = Some c → is_space c = false.
Proof.
  induction l as [|a l (pre & Hl & Hpre & Hhead)]; cbn [lstrip].
  - by exists [].
  - destruct (is_space a) eqn:Ha.
    + exists (a :: pre). split_and!; [by rewrite Hl at 1 | by constructor | done].
    + exists []. split_and!; [done | constructor |]. by intros c [= <-].
Qed.

(** [rstrip] does the same at the other end. *)
Lemma rstrip_spec (l : list ascii) :
  ∃ suf, l = rstrip l ++ suf ∧ Forall (λ c, is_space c = true) suf ∧
         ∀ c, last (rstrip l) = Some c → is_space c = false.
Proof.
  unfold rstrip. destruct (lstrip_spec (rev l)) as (pre & Hl & Hpre & Hhead).
  exists (rev pre). split_and!.
  - rewrite <- rev_app_distr, <- Hl. by rewrite rev_involutive.
  - by apply Forall_rev.
  - intros c. rewrite last_rev. apply Hhead.
Qed.

Lemma lower_ascii_not_upper (c : ascii) : is_upper (lower_ascii c) = false.
Proof.
  unfold lower_ascii, is_upper. cbv zeta.
  pose proof (nat_ascii_bounded c) as Hbound.
  destruct ((65 <=? nat_of_ascii c)%nat && (nat_of_ascii c <=? 90)%nat) eqn:Hup;
    [|done].
  apply andb_true_iff in Hup as [Hlo%Nat.leb_le Hhi%Nat.leb_le].
  rewrite nat_ascii_embedding by lia.
  apply andb_false_iff. right. apply Nat.leb_gt. lia.
Qed.

(** X11. The transform of the occupation table, [x[4:].lower().strip()],
    returns the description without its first four characters, in lower
    case and trimmed: what it drops around the result is whitespace only,
    the result neither starts nor ends with whitespace, and it holds no
    upper-case ASCII letter. *)
Theorem occupation_postprocess (x : string) :
  let lowered := map lower_ascii (drop 4 (list_ascii_of_string x)) in
  let out := list_ascii_of_string (strip (lower (slice_from 4 x))) in
  (∃ pre suf,
     lowered = pre ++ out ++ suf ∧
     Forall (λ c, is_space c = true) pre ∧
     Forall (λ c, is_space c = true) suf) ∧
  (∀ c, head out = Some c → is_space c = false) ∧
  (∀ c, last out = Some c → is_space c = false) ∧
  Forall (λ c, is_upper c = false) out.
Proof.
  cbv zeta. unfold strip, lower, slice_from.
  rewrite !list_ascii_of_string_of_list_ascii.
  set (lowered := map lower_ascii (drop 4 (list_ascii_of_string x))).
  destruct (lstrip_spec lowered) as (pre & Hpre_eq & Hpre & Hhead).
  destruct (rstrip_spec (lstrip lowered)) as (suf & Hsuf_eq & Hsuf & Hlast).
  assert (Hdecomp : lowered = pre ++ rstrip (lstrip lowered) ++ suf)
    by (by rewrite <- Hsuf_eq).
  split_and!.
  - by exists pre, suf.
  - intros c Hc. apply Hhead. rewrite Hsuf_eq, head_app. by rewrite Hc.
  - done.
  - assert (Forall (λ c, is_upper c = false) lowered) as Hall.
    { subst lowered. apply Forall_map, Forall_forall.
      intros c _. apply lower_ascii_not_upper. }
    rewrite Hdecomp in Hall.
    apply Forall_app in Hall as [_ Hall]. by apply Forall_app in Hall as [Hall _].
Qed.

Lemma list_ascii_of_string_append (s t : string) :
  list_ascii_of_string (s +:+ t) = list_ascii_of_string s ++ list_ascii_of_string t.
Proof. induction s as [|c s IH]; [done|]. simpl. f_equal. exact IH. Qed.


(** ** Required options, defaults and flags of the command line *)

(** X13. The four options [--model], [--task-name], [--results-dir] and
    [--data-dir] are required: a command line on which one of them is not
    passed, in full, abbreviated or with its value attached, ends the
    script with [SystemExit], whatever else it holds. *)
Theorem required_options_enforced (env : externals) (argv : list string)
    (option_name : string) :
  option_name ∈ ["--model"; "--task-name"; "--results-dir"; "--data-dir"] →
  passed setup_arg_parser argv option_name = false →
  ∃ code, main env argv = Raise (SystemExit code).
Proof.
  intros Hoption Habsent.
  assert (∃ code, parse_args setup_arg_parser argv = Raise (SystemExit code))
    as [code Hparse].
  { destruct (parse_args setup_arg_parser argv) as [args|e] eqn:Hparse.
    - assert (∃ a, a ∈ setup_arg_parser ∧ option_string a = option_name ∧
                   required a = true ∧
                   Forall (λ a', dest a' = dest a →
                                 option_string a' = option_string a)
                     setup_arg_parser) as (a & Ha & Ho & Hrequired & Hunique).
      { assert (∀ i a, setup_arg_parser !! i = Some a → a ∈ setup_arg_parser)
          as Hmember by (intros i a' ?; by eapply list_elem_of_lookup_2).
        apply elem_of_cons in Hoption as [-> | Hoption];
          [ eexists; split_and!;
            [ by apply (Hmember 0%nat) | reflexivity | reflexivity
            | each_argument ] |].
        apply elem_of_cons in Hoption as [-> | Hoption];
          [ eexists; split_and!;
            [ by apply (Hmember 1%nat) | reflexivity | reflexivity
            | each_argument ] |].
        apply elem_of_cons in Hoption as [-> | Hoption];
          [ eexists; split_and!;
            [ by apply (Hmember 2%nat) | reflexivity | reflexivity
            | each_argument ] |].
        apply elem_of_cons in Hoption as [-> | Hoption];
          [ eexists; split_and!;
            [ by apply (Hmember 3%nat) | reflexivity | reflexivity
            | each_argument ] |].
        by apply elem_of_nil in Hoption. }
      pose proof (parse_args_required setup_arg_parser argv args a Hparse Ha
                    Hrequired Hunique) as Hpassed.
      rewrite Ho in Hpassed. congruence.
    - destruct (parse_args_raises _ _ _ Hparse) as [code ->]. by exists code. }
  exists code. unfold main. cbv zeta. by rewrite Hparse.
Qed.

Lemma required_options_enforced_witness :
  ("--data-dir" ∈ ["--model"; "--task-name"; "--results-dir"; "--data-dir"] ∧
   passed setup_arg_parser
     ["--model=m"; "--task"; "ACSIncome"; "--results-dir"; "results";
      "--use-feature-subset"; "--"; "--data-dir"; "data"]
     "--data-dir" = false) ∧
  ∃ code,
    main all_succeed
      ["--model=m"; "--task"; "ACSIncome"; "--results-dir"; "results";
       "--use-feature-subset"; "--"; "--data-dir"; "data"]
    = Raise (SystemExit code).
Proof.
  assert ("--data-dir" ∈ ["--model"; "--task-name"; "--results-dir"; "--data-dir"])
    as Hin by (apply (bool_decide_unpack _); vm_compute; reflexivity).
  assert (passed setup_arg_parser
            ["--model=m"; "--task"; "ACSIncome"; "--results-dir"; "results";
             "--use-feature-subset"; "--"; "--data-dir"; "data"]
            "--data-dir" = false)
    as Hnot by (vm_compute; reflexivity).
  split; [by split|].
  exact (required_options_enforced all_succeed _ "--data-dir" Hin Hnot).
Defined.

(** Concludes from two readings of one attribute. *)
Ltac by_attribute :=
  match goal with
  | Hd : ?args !! ?d = Some _, H : ?args !! ?d = Some _ |- _ =>
      rewrite H in Hd; injection Hd as ->; reflexivity
  end.

(** X14. On every command line the script accepts, an option that is not
    passed leaves its default in the configuration: batch size 30,
    context size 500, seed 42, no few-shot count and no population
    filter. *)
Theorem defaults_when_options_absent (env : externals) (argv : list string)
    (config : BenchmarkConfig) :
  main env argv = Ok config →
  (passed setup_arg_parser argv "--batch-size" = false →
   batch_size config = AInt DEFAULT_BATCH_SIZE) ∧
  (passed setup_arg_parser argv "--context-size" = false →
   context_size config = AInt DEFAULT_CONTEXT_SIZE) ∧
  (passed setup_arg_parser argv "--seed" = false →
   seed config = AInt DEFAULT_SEED) ∧
  (passed setup_arg_parser argv "--few-shot" = false →
   few_shot config = ANone) ∧
  (passed setup_arg_parser argv "--use-population-filter" = false →
   population_filter config = None).
Proof.
  unfold main. intros Hmain. cbv zeta in Hmain.
  apply bind_result_Ok in Hmain as (args & Hparse & Hmain).
  main_steps Hmain. injection Hmain as <-. cbn -[setup_arg_parser passed].
  repeat match goal with
         | H : getattr _ _ = Ok _ |- _ => apply getattr_Ok in H
         end.
  split_and!; intros Habsent.
  - absent_option Hparse Habsent "--batch-size" "batch_size". by_attribute.
  - absent_option Hparse Habsent "--context-size" "context_size". by_attribute.
  - absent_option Hparse Habsent "--seed" "seed". by_attribute.
  - absent_option Hparse Habsent "--few-shot" "few_shot". by_attribute.
  - absent_option Hparse Habsent "--use-population-filter" "use_population_filter".
    match goal with
    | H : args !! "use_population_filter" = Some ?v,
      Hif : (if truthy ?v then _ else _) = Ok _ |- _ =>
        rewrite H in Hdefault; injection Hdefault as ->; cbn in Hif;
        by injection Hif as <-
    end.
Qed.

Lemma defaults_when_options_absent_witness :
  ∃ config,
    main all_succeed (required_argv ++ ["--use-feature-subset"; "--se=7"])
    = Ok config ∧
    batch_size config = AInt 30 ∧ seed config = AInt 7.
Proof.
  eexists. split; [vm_compute; reflexivity|].
  split; [|reflexivity].
  refine (proj1 (defaults_when_options_absent all_succeed
                   (required_argv ++ ["--use-feature-subset"; "--se=7"])
                   _ ltac:(vm_compute; reflexivity)) _).
  vm_compute. reflexivity.
Defined.

(** X15. On every command line the script accepts, each of the flags
    [--chat-prompt], [--direct-risk-prompting] and
    [--reuse-few-shot-examples] is true in the configuration exactly when it
    is passed, in full or abbreviated. *)
Theorem flags_true_iff_passed (env : externals) (argv : list string)
    (config : BenchmarkConfig) :
  main env argv = Ok config →
  chat_prompt config = ABool (passed setup_arg_parser argv "--chat-prompt") ∧
  direct_risk_prompting config
    = ABool (passed setup_arg_parser argv "--direct-risk-prompting") ∧
  reuse_few_shot_examples config
    = ABool (passed setup_arg_parser argv "--reuse-few-shot-examples").
Proof.
  unfold main. intros Hmain. cbv zeta in Hmain.
  apply bind_result_Ok in Hmain as (args & Hparse & Hmain).
  main_steps Hmain. injection Hmain as <-. cbn -[setup_arg_parser passed].
  repeat match goal with
         | H : getattr _ _ = Ok _ |- _ => apply getattr_Ok in H
         end.
  split_and!.
  - destruct (passed setup_arg_parser argv "--chat-prompt") eqn:Hpassed.
    + present_flag Hparse Hpassed "--chat-prompt" "chat_prompt" true. by_attribute.
    + absent_option Hparse Hpassed "--chat-prompt" "chat_prompt". by_attribute.
  - destruct (passed setup_arg_parser argv "--direct-risk-prompting") eqn:Hpassed.
    + present_flag Hparse Hpassed "--direct-risk-prompting"
        "direct_risk_prompting" true. by_attribute.
    + absent_option Hparse Hpassed "--direct-risk-prompting"
        "direct_risk_prompting". by_attribute.
  - destruct (passed setup_arg_parser argv "--reuse-few-shot-examples")
      eqn:Hpassed.
    + present_flag Hparse Hpassed "--reuse-few-shot-examples"
        "reuse_few_shot_examples" true. by_attribute.
    + absent_option Hparse Hpassed "--reuse-few-shot-examples"
        "reuse_few_shot_examples". by_attribute.
Qed.

Lemma flags_true_iff_passed_witness :
  ∃ config,
    main all_succeed (required_argv ++ ["--chat"; "--use-feature-subset"])
    = Ok config ∧
    chat_prompt config = ABool true ∧
    direct_risk_prompting config = ABool false.
Proof.
  eexists. split; [vm_compute; reflexivity|].
  pose proof (flags_true_iff_passed all_succeed
                (required_argv ++ ["--chat"; "--use-feature-subset"])
                _ ltac:(vm_compute; reflexivity)) as (Hchat & Hrisk & _).
  split; [exact Hchat | exact Hrisk].
Defined.

(** ** Population filters *)

Lemma split_on_length (sep : ascii) (cur s : list ascii) :
  length (split_on sep cur s) = S (length (filter (λ c, c = sep) s)).
Proof.
  revert cur. induction s as [|c s IH]; intros cur; [done|].
  cbn [split_on]. rewrite filter_cons.
  destruct (decide (c = sep)); cbn [length]; by rewrite IH.
Qed.

Lemma split_on_no_sep (sep : ascii) (cur s : list ascii) :
  sep ∉ s → split_on sep cur s = [string_of_list_ascii (rev cur ++ s)].
Proof.
  revert cur. induction s as [|c s IH]; intros cur Hs.
  - cbn. by rewrite app_nil_r.
  - apply not_elem_of_cons in Hs as [Hc Hs]. cbn [split_on].
    rewrite decide_False by congruence. rewrite IH by done.
    cbn [rev]. by rewrite <- app_assoc.
Qed.

Lemma split_on_once (sep : ascii) (cur a b : list ascii) :
  sep ∉ a → sep ∉ b →
  split_on sep cur (a ++ sep :: b) =
    [string_of_list_ascii (rev cur ++ a); string_of_list_ascii b].
Proof.
  revert cur. induction a as [|c a IH]; intros cur Ha Hb.
  - cbn [app split_on]. rewrite decide_True by done.
    rewrite split_on_no_sep by done. by rewrite app_nil_r.
  - apply not_elem_of_cons in Ha as [Hc Ha]. cbn [app split_on].
    rewrite decide_False by congruence. rewrite IH by done.
    cbn [rev]. by rewrite <- app_assoc.
Qed.

Lemma fill_population_filter_snoc (filters : list string) (filter_str : string)
    (d : gmap string string) :
  fill_population_filter (filters ++ [filter_str]) d =
    d' ← fill_population_filter filters d; fill_population_filter [filter_str] d'.
Proof.
  revert d. induction filters as [|f filters IH]; intros d.
  - reflexivity.
  - cbn [app]. cbn [fill_population_filter].
    destruct (split_on _ _ _) as [|x [|y [|z l]]]; first [done | apply IH].
Qed.

(** X16. Filter strings of the form [column=value] are decoded into the
    dictionary of their columns and values; when a column is named by
    several filters, the last one stays. *)
Theorem population_filter_decoded (pairs : list (string * string)) :
  Forall (λ p, ("="%char ∉ list_ascii_of_string (p.1)) ∧
               ("="%char ∉ list_ascii_of_string (p.2))) pairs →
  ∃ d,
    fill_population_filter ((λ p, p.1 +:+ "=" +:+ p.2) <$> pairs) ∅ = Ok d ∧
    ∀ column,
      d !! column = snd <$> last (filter (λ p, p.1 = column) pairs).
Proof.
  induction pairs as [|[column value] pairs IH] using rev_ind; intros Hpairs.
  - exists ∅. split; [done|]. intros column. apply lookup_empty.
  - apply Forall_app in Hpairs as [Hpairs Hlast].
    apply Forall_singleton in Hlast as [Hcolumn Hvalue]. cbn in Hcolumn, Hvalue.
    destruct (IH Hpairs) as (d & Hd & Hlookup).
    exists (<[column := value]> d). split.
    + rewrite fmap_app. cbn [fmap list_fmap].
      rewrite fill_population_filter_snoc, Hd. cbn [mbind result_bind fst snd].
      cbn [fill_population_filter].
      rewrite !list_ascii_of_string_append. cbn [list_ascii_of_string app].
      rewrite split_on_once by done. cbn [rev app].
      by rewrite !string_of_list_ascii_of_string.
    + intros column'. rewrite filter_app, filter_cons, filter_nil. cbn [fst].
      destruct (decide (column = column')) as [-> | Hne].
      * rewrite lookup_insert_eq. by rewrite last_snoc.
      * rewrite lookup_insert_ne by done. rewrite app_nil_r. apply Hlookup.
Qed.

Lemma population_filter_decoded_witness :
  ∃ d,
    fill_population_filter ["SEX=1"; "RAC1P=2"; "SEX=2"] ∅ = Ok d ∧
    d !! "SEX" = Some "2" ∧ d !! "RAC1P" = Some "2".
Proof.
  assert (Forall (λ p, ("="%char ∉ list_ascii_of_string (p.1)) ∧
                       ("="%char ∉ list_ascii_of_string (p.2)))
            [("SEX", "1"); ("RAC1P", "2"); ("SEX", "2")]) as Hpairs
    by (repeat (apply Forall_cons; split;
                [split; apply (bool_decide_unpack _); vm_compute; reflexivity|]);
        apply Forall_nil_2).
  destruct (population_filter_decoded
              [("SEX", "1"); ("RAC1P", "2"); ("SEX", "2")] Hpairs)
    as (d & Hd & Hlookup).
  exists d. split; [exact Hd|].
  split; [exact (Hlookup "SEX") | exact (Hlookup "RAC1P")].
Defined.

(** X17. The filters are accepted exactly when each of them holds one
    equals sign; a filter with none or with several makes the loop raise
    [ValueError], so a value that itself contains an equals sign cannot be
    passed. *)
Theorem population_filter_needs_one_equals (filters : list string)
    (d : gmap string string) :
  let one_equals (filter_str : string) :=
    length (filter (λ c, c = "="%char) (list_ascii_of_string filter_str)) = 1 in
  ((∃ d', fill_population_filter filters d = Ok d') ↔
   Forall one_equals filters) ∧
  ((∃ d', fill_population_filter filters d = Ok d') ∨
   (∃ msg, fill_population_filter filters d = Raise (ValueError msg))).
Proof.
  cbv zeta. revert d. induction filters as [|f filters IH]; intros d.
  - split; [split; [constructor | by eexists] | left; by eexists].
  - cbn [fill_population_filter].
    pose proof (split_on_length "="%char [] (list_ascii_of_string f)) as Hlen.
    destruct (split_on "="%char [] (list_ascii_of_string f))
      as [|x [|y [|z l]]]; cbn [length] in Hlen.
    + done.
    + split; [|right; by eexists].
      split; [by intros [d' [=]] |]. intros [Hone _]%Forall_cons. lia.
    + destruct (IH (<[x := y]> d)) as [Hiff Hcases]. split; [|done].
      rewrite Hiff. split.
      * intros Hrest. apply Forall_cons. split; [lia | done].
      * by intros [_ Hrest]%Forall_cons.
    + split; [|right; by eexists].
      split; [by intros [d' [=]] |]. intros [Hone _]%Forall_cons. lia.
Qed.

